(** * doglog: command-line argument resolution ([args.go])

    A shallow embedding of [parseArgs], [strToDate], [timeRangeToSeconds],
    [invalidArgs], [expandPath] and [isTty], together with the parts of the
    Go standard library they call ([regexp], [strconv], [strings],
    [path/filepath], [unicode/utf8], [time]), and the properties of the
    resolution engine proved over it.

    Conventions.
    - A Go [string] is a [string] of bytes; [len] is [String.length].
    - A Go [int] is a 64-bit two's-complement integer, carried as a [Z]
      with the wrap-around of [+] and [*] written out ([Int.wrap]).
    - [os.Exit], a nil dereference and the reads of the wall clock are the
      effects of the program; they live in the monad [M]. *)

From Stdlib Require Import ZArith List Bool Ascii String Lia Permutation.
Import ListNotations.

#[local] Open Scope string_scope.

(* ================================================================== *)
(** ** Go [int] *)

Module Int.
#[local] Open Scope Z_scope.

Definition intSize : Z := 64.
Definition maxInt : Z := 2 ^ (intSize - 1) - 1.
Definition minInt : Z := - 2 ^ (intSize - 1).

(** The value a Go [int] holds after an operation whose exact result is [z]. *)
Definition wrap (z : Z) : Z :=
  (z + 2 ^ (intSize - 1)) mod 2 ^ intSize - 2 ^ (intSize - 1).

Definition add (x y : Z) : Z := wrap (x + y).
Definition mul (x y : Z) : Z := wrap (x * y).

Definition in_range (z : Z) : Prop := minInt <= z <= maxInt.

End Int.

(* ================================================================== *)
(** ** Byte strings *)

Module Bytes.

Definition byte (c : ascii) : nat := nat_of_ascii c.

(** [s[i:]] *)
Fixpoint drop (i : nat) (s : string) : string :=
  match i, s with
  | O, _ => s
  | S i', String _ s' => drop i' s'
  | S _, EmptyString => EmptyString
  end.

(** [s[i:j]] *)
Definition slice (i j : nat) (s : string) : string := substring i (j - i) s.

Definition isDigit (c : ascii) : bool :=
  (48 <=? byte c)%nat && (byte c <=? 57)%nat.

Definition isLetter (c : ascii) : bool :=
  ((97 <=? byte c)%nat && (byte c <=? 122)%nat)
  || ((65 <=? byte c)%nat && (byte c <=? 90)%nat).

Definition isSpace (c : ascii) : bool := Ascii.eqb c " ".

Definition newline : string := String (ascii_of_nat 10) EmptyString.
Definition dquote : string := String (ascii_of_nat 34) EmptyString.

Fixpoint all (p : ascii -> bool) (s : string) : bool :=
  match s with
  | EmptyString => true
  | String c s' => p c && all p s'
  end.

End Bytes.

(* ================================================================== *)
(** ** [unicode/utf8] *)

Module Utf8.
Import Bytes.

Definition between (lo hi : nat) (c : ascii) : bool :=
  (lo <=? byte c)%nat && (byte c <=? hi)%nat.

(** Second component of [utf8.DecodeRuneInString]: the width in bytes of the
    rune at the front of [s]; [0] for the empty string and [1] for an
    invalid encoding. *)
Definition runeWidth (s : string) : nat :=
  match s with
  | EmptyString => 0
  | String c0 r =>
    let '(sz, lo, hi) :=
      if between 0 127 c0 then (1, 0, 0)
      else if between 194 223 c0 then (2, 128, 191)
      else if between 224 224 c0 then (3, 160, 191)
      else if between 225 236 c0 then (3, 128, 191)
      else if between 237 237 c0 then (3, 128, 159)
      else if between 238 239 c0 then (3, 128, 191)
      else if between 240 240 c0 then (4, 144, 191)
      else if between 241 243 c0 then (4, 128, 191)
      else if between 244 244 c0 then (4, 128, 143)
      else (1, 0, 0) in
    match sz with
    | 1 => 1
    | _ =>
      if (String.length s <? sz)%nat then 1
      else
        match r with
        | String c1 r1 =>
          if negb (between lo hi c1) then 1
          else if (sz <=? 2)%nat then 2
          else
            match r1 with
            | String c2 r2 =>
              if negb (between 128 191 c2) then 1
              else if (sz <=? 3)%nat then 3
              else
                match r2 with
                | String c3 _ => if negb (between 128 191 c3) then 1 else 4
                | EmptyString => 1
                end
            | EmptyString => 1
            end
        | EmptyString => 1
        end
    end
  end.

End Utf8.

(* ================================================================== *)
(** ** Go [error] values *)

Inductive errKind := ErrSyntax | ErrRange.

(** [*strconv.NumError], or any other error, known by its message. *)
Inductive error :=
| NumError (Func Num : string) (Err : errKind)
| ErrorString (msg : string).

(** [err.Error()].  [strconv.Quote] is written out for the strings it is
    applied to here: bytes from [[0-9a-zA-Z]], which it leaves as they are
    between two double quotes. *)
Definition Error (e : error) : string :=
  match e with
  | NumError f n k =>
    "strconv." ++ f ++ ": parsing " ++ Bytes.dquote ++ n ++ Bytes.dquote ++ ": "
      ++ match k with
         | ErrSyntax => "invalid syntax"
         | ErrRange => "value out of range"
         end
  | ErrorString m => m
  end.

(* ================================================================== *)
(** ** [strconv] *)

Module Strconv.
Import Bytes.
#[local] Open Scope Z_scope.

Definition maxUint64 : Z := 2 ^ 64 - 1.

(** The digit loop of [strconv.ParseUint(s, 10, 64)]: [inl n] is the value,
    [inr k] the kind of the first error met, scanning left to right. *)
Fixpoint parseDigits (s : string) (n : Z) : Z + errKind :=
  match s with
  | EmptyString => inl n
  | String c s' =>
    if negb (isDigit c) then inr ErrSyntax
    else if maxUint64 / 10 + 1 <=? n then inr ErrRange
    else
      let n1 := n * 10 + (Z.of_nat (byte c) - 48) in
      if maxUint64 <? n1 then inr ErrRange else parseDigits s' n1
  end.

Definition ParseUint (s : string) : Z + errKind :=
  match s with
  | EmptyString => inr ErrSyntax
  | _ => parseDigits s 0
  end.

(** [strconv.Atoi]: [strconv.ParseInt(s, 10, 0)] converted to [int]. *)
Definition Atoi (s : string) : Z + error :=
  match s with
  | EmptyString => inr (NumError "Atoi" s ErrSyntax)
  | String c r =>
    let neg := Ascii.eqb c "-" in
    let digits := if neg || Ascii.eqb c "+" then r else s in
    match ParseUint digits with
    | inr k => inr (NumError "Atoi" s k)
    | inl un =>
      if negb neg && (2 ^ (Int.intSize - 1) <=? un) then inr (NumError "Atoi" s ErrRange)
      else if neg && (2 ^ (Int.intSize - 1) <? un) then inr (NumError "Atoi" s ErrRange)
      else inl (if neg then - un else un)
    end
  end.

End Strconv.

(* ================================================================== *)
(** ** [strings] *)

Module Strings.
Import Bytes.

(** [strings.HasPrefix(s, prefix)] *)
Fixpoint HasPrefix (s prefix : string) {struct prefix} : bool :=
  match prefix, s with
  | EmptyString, _ => true
  | String p prefix', String c s' => Ascii.eqb c p && HasPrefix s' prefix'
  | String _ _, EmptyString => false
  end.

Definition toLowerByte (c : ascii) : ascii :=
  if (65 <=? byte c)%nat && (byte c <=? 90)%nat
  then ascii_of_nat (byte c + 32) else c.

(** [strings.ToLower] on ASCII text (the program applies it to one byte of
    [[0-9a-zA-Z]]). *)
Fixpoint ToLower (s : string) : string :=
  match s with
  | EmptyString => EmptyString
  | String c s' => String (toLowerByte c) (ToLower s')
  end.

(** [strings.Join(elems, sep)] *)
Fixpoint Join (elems : list string) (sep : string) : string :=
  match elems with
  | [] => EmptyString
  | [e] => e
  | e :: rest => e ++ sep ++ Join rest sep
  end.

End Strings.

(* ================================================================== *)
(** ** [regexp]

    The two patterns of [args.go] use character classes over ASCII,
    concatenation, alternation, greedy [?], greedy [*] of a class, and the
    anchors [^] and [$].  Capturing parentheses do not change what
    [MatchString] and [FindAllString] return and are left out.

    Go's [regexp] returns the leftmost match and, among the matches that
    start there, "the one that a backtracking search would have found
    first"; [rmatch] is that backtracking search, in continuation-passing
    style: [k] is called with the position and the text left after each
    candidate, in the order of preference. *)

Module Regexp.
Import Bytes.

Inductive regex :=
| Class (p : ascii -> bool)
| Cat (r1 r2 : regex)
| Alt (r1 r2 : regex)
| Quest (r : regex)
| StarClass (p : ascii -> bool)
| Bol
| Eol.

Section Matcher.
Variable A : Type.

Fixpoint starClass (p : ascii -> bool) (pos : nat) (s : string)
    (k : nat -> string -> option A) : option A :=
  match s with
  | String c s' =>
    if p c then
      match starClass p (S pos) s' k with
      | Some e => Some e
      | None => k pos s
      end
    else k pos s
  | EmptyString => k pos s
  end.

Fixpoint rmatch (r : regex) (pos : nat) (s : string)
    (k : nat -> string -> option A) : option A :=
  match r with
  | Class p =>
    match s with
    | String c s' => if p c then k (S pos) s' else None
    | EmptyString => None
    end
  | Cat r1 r2 => rmatch r1 pos s (fun pos' s' => rmatch r2 pos' s' k)
  | Alt r1 r2 =>
    match rmatch r1 pos s k with
    | Some e => Some e
    | None => rmatch r2 pos s k
    end
  | Quest r1 =>
    match rmatch r1 pos s k with
    | Some e => Some e
    | None => k pos s
    end
  | StarClass p => starClass p pos s k
  | Bol => if (pos =? 0)%nat then k pos s else None
  | Eol => match s with EmptyString => k pos s | String _ _ => None end
  end.

End Matcher.

Arguments starClass {A}.
Arguments rmatch {A}.

(** The first match at or after [pos], as the pair of its bounds; [s] is the
    text from [pos] on.  A match is tried where a rune starts: after a
    failure the search moves on by the width of the rune, [skip] counting the
    bytes of it that are left. *)
Fixpoint searchFrom (re : regex) (pos : nat) (s : string) (skip : nat)
    : option (nat * nat) :=
  match skip with
  | O =>
    match rmatch re pos s (fun e _ => Some e) with
    | Some e => Some (pos, e)
    | None =>
      match s with
      | String _ s' => searchFrom re (S pos) s' (Utf8.runeWidth s - 1)
      | EmptyString => None
      end
    end
  | S skip' =>
    match s with
    | String _ s' => searchFrom re (S pos) s' skip'
    | EmptyString => None
    end
  end.

Definition search (re : regex) (pos : nat) (s : string) : option (nat * nat) :=
  searchFrom re pos s 0.

(** [regexp.MatchString(pattern, s)] for a pattern that compiles. *)
Definition MatchString (re : regex) (s : string) : bool :=
  match search re 0 s with
  | Some _ => true
  | None => false
  end.

(** The loop of [Regexp.allMatches] in Go: [fuel] bounds the iterations,
    [n] the matches delivered, [i] counts them, [prevMatchEnd] is [-1]
    before the first match. *)
Fixpoint allMatches (fuel : nat) (re : regex) (s : string) (n : nat)
    (pos i : nat) (prevMatchEnd : Z) : list (nat * nat) :=
  match fuel with
  | O => []
  | S fuel' =>
    if (i <? n)%nat && (pos <=? String.length s)%nat then
      match search re pos (drop pos s) with
      | None => []
      | Some (m0, m1) =>
        let empty := (m1 =? pos)%nat in
        (* an empty match right after the previous match is ignored *)
        let accept := negb (empty && (Z.of_nat m0 =? prevMatchEnd)%Z) in
        let pos' :=
          if empty then
            let width := Utf8.runeWidth (drop pos s) in
            if (0 <? width)%nat then pos + width else String.length s + 1
          else m1 in
        let rest :=
          allMatches fuel' re s n pos' (if accept then S i else i) (Z.of_nat m1) in
        if accept then (m0, m1) :: rest else rest
      end
    else []
  end.

(** [re.FindAllString(s, n)]; every iteration moves [pos] forward, so
    [len(s) + 2] iterations are enough ([allMatches_fuel]). *)
Definition FindAllString (re : regex) (s : string) (n : Z) : list string :=
  let n' := if (n <? 0)%Z then String.length s + 1 else Z.to_nat n in
  map (fun m => slice (fst m) (snd m) s)
      (allMatches (String.length s + 2) re s n' 0 0 (-1)).

(** A literal byte. *)
Definition chr (c : ascii) : regex := Class (Ascii.eqb c).

(** What a pattern means: [denotes r pos w rest] when [r] matches the text
    [w] that starts at position [pos] and is followed by [rest]. *)
Inductive denotes : regex -> nat -> string -> string -> Prop :=
| denotes_class p c pos rest :
    p c = true -> denotes (Class p) pos (String c EmptyString) rest
| denotes_cat r1 r2 pos w1 w2 rest :
    denotes r1 pos w1 (w2 ++ rest) ->
    denotes r2 (pos + String.length w1) w2 rest ->
    denotes (Cat r1 r2) pos (w1 ++ w2) rest
| denotes_alt_l r1 r2 pos w rest :
    denotes r1 pos w rest -> denotes (Alt r1 r2) pos w rest
| denotes_alt_r r1 r2 pos w rest :
    denotes r2 pos w rest -> denotes (Alt r1 r2) pos w rest
| denotes_quest r pos w rest :
    denotes r pos w rest -> denotes (Quest r) pos w rest
| denotes_quest_empty r pos rest :
    denotes (Quest r) pos EmptyString rest
| denotes_star p pos w rest :
    all p w = true -> denotes (StarClass p) pos w rest
| denotes_bol rest :
    denotes Bol 0 EmptyString rest
| denotes_eol pos :
    denotes Eol pos EmptyString EmptyString.

End Regexp.

Import Regexp.

(** The pattern of [timeRangeToSeconds]: a group [[0-9]*] followed by a
    group [[a-zA-Z]*]. *)
Definition timeRangeRe : regex :=
  Cat (StarClass Bytes.isDigit) (StarClass Bytes.isLetter).

Definition digit : regex := Class Bytes.isDigit.
Definition word (a b : ascii) : regex := Cat (chr a) (chr b).

(** The pattern of [strToDate]:
    [^[0-9]{1,2}:[0-9]{2}(:[0-9]{2})?([ ]*(am|pm|AM|PM)?)?$], group by
    group. *)
Definition hourRe : regex := Cat digit (Quest digit).
Definition minuteRe : regex := Cat digit digit.
Definition secondRe : regex := Cat (chr ":") (Cat digit digit).
Definition markerRe : regex :=
  Alt (Alt (Alt (word "a" "m") (word "p" "m")) (word "A" "M")) (word "P" "M").
Definition timeOnlyTail : regex :=
  Cat (Quest (Cat (StarClass Bytes.isSpace) (Quest markerRe))) Eol.

Definition timeOnlyRe : regex :=
  Cat Bol (Cat hourRe (Cat (chr ":") (Cat minuteRe (Cat (Quest secondRe) timeOnlyTail)))).

(* ================================================================== *)
(** ** [path/filepath] (Unix: the separator is [/]) *)

Module Filepath.
Import Bytes.

(** The elements of [path] between separators, as [strings.Split(path, "/")]. *)
Fixpoint split (path : string) : list string :=
  match path with
  | EmptyString => [EmptyString]
  | String c rest =>
    if Ascii.eqb c "/" then EmptyString :: split rest
    else
      match split rest with
      | e :: es => String c e :: es
      | [] => [String c EmptyString]
      end
  end.

(** One element of the path against the elements kept so far (last one
    first): empty and [.] elements are dropped, [..] removes the element
    before it, is dropped at the root, and is kept at the front of a
    relative path. *)
Definition cleanStep (rooted : bool) (kept : list string) (e : string) : list string :=
  if String.eqb e EmptyString || String.eqb e "." then kept
  else if String.eqb e ".." then
    match kept with
    | top :: kept' => if String.eqb top ".." then e :: kept else kept'
    | [] => if rooted then kept else [e]
    end
  else e :: kept.

(** [filepath.Clean(path)] *)
Definition Clean (path : string) : string :=
  match path with
  | EmptyString => "."
  | String c _ =>
    let rooted := Ascii.eqb c "/" in
    let body := Strings.Join (rev (fold_left (cleanStep rooted) (split path) [])) "/" in
    if rooted then "/" ++ body
    else if String.eqb body EmptyString then "." else body
  end.

(** [filepath.Join(elem...)]: the elements from the first non-empty one on,
    joined by the separator and cleaned; the empty string if there is none. *)
Fixpoint Join (elem : list string) : string :=
  match elem with
  | [] => EmptyString
  | e :: rest =>
    if String.eqb e EmptyString then Join rest
    else Clean (Strings.Join elem "/")
  end.

End Filepath.

(* ================================================================== *)
(** ** [time] *)

Module GoTime.
Import Bytes.
#[local] Open Scope Z_scope.

(** A [time.Time] by its calendar fields (local time). *)
Record Time := mkTime {
  Year : Z; Month : Z; Day : Z;
  Hour : Z; Minute : Z; Second : Z; Nanosecond : Z
}.

Definition digitByte (d : Z) : ascii := ascii_of_nat (48 + Z.to_nat d).

Fixpoint digitsOf (fuel : nat) (n : Z) (acc : string) : string :=
  match fuel with
  | O => acc
  | S fuel' =>
    let acc' := String (digitByte (n mod 10)) acc in
    if n / 10 =? 0 then acc' else digitsOf fuel' (n / 10) acc'
  end.

Fixpoint zeros (k : nat) : string :=
  match k with
  | O => EmptyString
  | S k' => String "0" (zeros k')
  end.

(** [appendInt(b, x, width)] of package [time]: decimal, zero-padded to
    [width] digits, with a sign for a negative number. *)
Definition appendInt (x : Z) (width : nat) : string :=
  let ds := digitsOf (S (Z.to_nat (Z.log2 (Z.abs x)))) (Z.abs x) EmptyString in
  (if x <? 0 then "-" else EmptyString)
    ++ zeros (width - String.length ds) ++ ds.

(** [t.Format("2006-01-02")] *)
Definition FormatDate (t : Time) : string :=
  appendInt (Year t) 4 ++ "-" ++ appendInt (Month t) 2 ++ "-" ++ appendInt (Day t) 2.

Definition isLeap (y : Z) : bool :=
  (y mod 4 =? 0) && (negb (y mod 100 =? 0) || (y mod 400 =? 0)).

(** [t.AddDate(years, 0, 0)]: the same fields in year [Year t + years],
    normalised as [time.Date] does; for a valid date only 29 February of a
    year that is not a leap year changes, into 1 March. *)
Definition AddDate (t : Time) (years : Z) : Time :=
  let y := Year t + years in
  if (Month t =? 2) && (Day t =? 29) && negb (isLeap y)
  then mkTime y 3 1 (Hour t) (Minute t) (Second t) (Nanosecond t)
  else mkTime y (Month t) (Day t) (Hour t) (Minute t) (Second t) (Nanosecond t).

End GoTime.

Import GoTime.

(* ================================================================== *)
(** ** Effects: the wall clock, [os.Exit] and panics

    The state is the number of times the clock has been read; the [k]-th
    reading of [time.Now()] is [time_Now k].  A computation returns a value
    and the new count, or ends the process: [Exits] carries what was
    written to standard error and the exit status, [Panics] is a run-time
    panic. *)

Inductive outcome (A : Type) :=
| Returns (a : A) (clock : nat)
| Exits (stderr : string) (status : Z)
| Panics.

Arguments Returns {A} a clock.
Arguments Exits {A} stderr status.
Arguments Panics {A}.

Definition M (A : Type) : Type := nat -> outcome A.

Definition ret {A} (a : A) : M A := fun clock => Returns a clock.

Definition bind {A B} (m : M A) (f : A -> M B) : M B :=
  fun clock =>
    match m clock with
    | Returns a clock' => f a clock'
    | Exits e st => Exits e st
    | Panics => Panics
    end.

Definition exit {A} (stderr : string) (status : Z) : M A :=
  fun _ => Exits stderr status.

Definition panic {A} : M A := fun _ => Panics.

Declare Scope go_scope.
Delimit Scope go_scope with go.
Notation "x <- m ;; f" := (bind m (fun x => f))
  (at level 61, m at next level, right associativity) : go_scope.
#[local] Open Scope go_scope.

(* ================================================================== *)
(** ** [args.go] *)

(** DefaultLimit is the value used when no limit is provided by the user *)
Definition DefaultLimit : Z := 300.

(** DefaultRange is the value used when no range is provided by the user *)
Definition DefaultRange : string := "2h".

(** DefaultConfigPath is the default location of the configuration path. *)
Definition DefaultConfigPath : string := "~/.doglog".

(** What [parser.Parse(os.Args)] found on the command line: [None] for an
    option that was not given.  [argparse] then stores the [Default] of the
    option's declaration if it has one, and the zero value otherwise
    ([arg]). *)
Record arguments := mkArguments {
  arg_service : option string;
  arg_query : option string;
  arg_limit : option Z;
  arg_tail : bool;
  arg_config : option string;
  arg_range : option string;
  arg_start : option string;
  arg_end : option string;
  arg_json : bool;
  arg_no_colors : bool
}.

Definition arg {A} (default : A) (given : option A) : A :=
  match given with
  | Some v => v
  | None => default
  end.

(** The same command line with another [--limit]. *)
Definition set_limit (a : arguments) (l : option Z) : arguments :=
  mkArguments (arg_service a) (arg_query a) l (arg_tail a) (arg_config a)
              (arg_range a) (arg_start a) (arg_end a) (arg_json a) (arg_no_colors a).

(** [*user.User] *)
Record User := mkUser { HomeDir : string }.

(** Check to see whether we're outputting to a terminal or if we've been
    redirected to a file.  [stdout_is_terminal] is what the commented-out
    [unix.IoctlGetTermios] call on [os.Stdout] would report. *)
Definition isTty (stdout_is_terminal : bool) : bool := true.

Section Args.

(** The options structure stores the command-line options and values;
    [IniFile] is [config.IniFile]. *)
Variable IniFile : Type.

Record options := mkOptions {
  service : string;
  query : string;
  limit : Z;
  tail : bool;
  configPath : string;
  timeRange : Z;
  startDate : option Time;
  endDate : option Time;
  json : bool;
  serverConfig : option IniFile;
  color : bool
}.

(** The world outside [args.go]. *)
Variable usage : string.                              (* parser.Usage(nil), as Fprintf prints it *)
Variable parsed : arguments + error.                  (* parser.Parse(os.Args) *)
Variable time_Now : nat -> Time.                      (* time.Now(), reading by reading *)
Variable dateparse_ParseLocal : string -> Time + error.
Variable user_Current : option User.                  (* user.Current(); None: no user, usr is nil *)
Variable config_New : string -> IniFile + error.
Variable stdout_is_terminal : bool.

Definition now : M Time := fun clock => Returns (time_Now clock) (S clock).

(** Display the help message when a command-line argument is invalid. *)
Definition invalidArgs {A} (err : option error) (msg : string) : M A :=
  let nl := Bytes.newline in
  let report :=
    if (0 <? String.length msg)%nat then
      match err with
      | Some e => msg ++ ": " ++ Error e ++ nl ++ nl
      | None => msg ++ nl ++ nl
      end
    else
      match err with
      | Some e => Error e ++ nl ++ nl
      | None => EmptyString
      end in
  exit (report ++ usage) 1.

(** Lines 120-131 of [strToDate]: parse, and move a date of year 0 to the
    current year. *)
Definition parseLocal (dateStr errorStr : string) : M (option Time) :=
  match dateparse_ParseLocal dateStr with
  | inr err => invalidArgs (Some err) errorStr
  | inl dateTime =>
    if (Year dateTime =? 0)%Z then
      t <- now ;;
      ret (Some (AddDate dateTime (Year t)))
    else ret (Some dateTime)
  end.

(** Convert a variable human-friendly date into a time.Time. *)
Definition strToDate (dateStr errorStr : string) (defaultToNow : bool) : M (option Time) :=
  if (0 <? String.length dateStr)%nat then
    (* Check to see if the date is a time only *)
    let matched := MatchString timeOnlyRe dateStr in
    if matched then
      t <- now ;;
      parseLocal (FormatDate t ++ " " ++ dateStr) errorStr
    else parseLocal dateStr errorStr
  else if defaultToNow then
    t <- now ;;
    ret (Some t)
  else ret None.

(** The body of the [for] loop of [timeRangeToSeconds], over the parts
    that are left. *)
Fixpoint timeRangeLoop (parts : list string) (accumulator : Z) : M Z :=
  match parts with
  | [] => ret accumulator
  | part :: parts' =>
    if (1 <? String.length part)%nat then
      let unit := Bytes.drop (String.length part - 1) part in
      let numberStr := Bytes.slice 0 (String.length part - 1) part in
      match Strconv.Atoi numberStr with
      | inr err => invalidArgs (Some err) "Time range can't be parsed"
      | inl num =>
        let lower := Strings.ToLower unit in
        if String.eqb lower "s" then timeRangeLoop parts' (Int.add accumulator num)
        else if String.eqb lower "m" then timeRangeLoop parts' (Int.add accumulator (Int.mul num 60))
        else if String.eqb lower "h" then timeRangeLoop parts' (Int.add accumulator (Int.mul num 3600))
        else if String.eqb lower "d" then timeRangeLoop parts' (Int.add accumulator (Int.mul num 86400))
        else invalidArgs None "Time range can't be parsed"
      end
    else timeRangeLoop parts' accumulator
  end.

(** Converts a simple human-friendly time range into seconds, e.g., 2h for
    2 hours, 3d2h30m for 3 days, 2 hours and 30 minutes. *)
Definition timeRangeToSeconds (timeRange : string) : M Z :=
  let parts := FindAllString timeRangeRe timeRange (-1) in
  timeRangeLoop parts 0.

(** Expand a leading tilde (~) in a file path into the user's home
    directory. *)
Definition expandPath (configPath : string) : M string :=
  if Strings.HasPrefix configPath "~/" then
    match user_Current with
    | Some usr => ret (Filepath.Join [HomeDir usr; Bytes.drop 2 configPath])
    | None => panic
    end
  else ret configPath.

(** Lines 98-106 of [parseArgs]: read the configuration file. *)
Definition readConfig (opts : options) : M options :=
  match config_New (configPath opts) with
  | inr err => invalidArgs (Some err) EmptyString
  | inl cfg =>
    ret (mkOptions (service opts) (query opts) (limit opts) (tail opts)
                   (configPath opts) (timeRange opts) (startDate opts)
                   (endDate opts) (json opts) (Some cfg) (color opts))
  end.

(** parseArgs parses the command-line arguments. *)
Definition parseArgs : M options :=
  defaultConfigPath <- expandPath DefaultConfigPath ;;
  match parsed with
  | inr err => invalidArgs (Some err) EmptyString
  | inl a =>
    let service := arg EmptyString (arg_service a) in
    let query := arg EmptyString (arg_query a) in
    let limit := arg DefaultLimit (arg_limit a) in
    let tail := arg_tail a in
    let configPath := arg defaultConfigPath (arg_config a) in
    let timeRange := arg DefaultRange (arg_range a) in
    let start := arg EmptyString (arg_start a) in
    let end_ := arg EmptyString (arg_end a) in
    startDate <- strToDate start "The --start date can't be parsed" false ;;
    endDate <- strToDate end_ "The --end date can't be parsed" true ;;
    let limit := if (limit <=? 0)%Z then DefaultLimit else limit in
    let tail := match startDate with Some _ => false | None => tail end in
    let query :=
      if (0 <? String.length service)%nat then
        let newQuery := "service:" ++ service in
        if (0 <? String.length query)%nat then newQuery ++ " AND " ++ query
        else newQuery
      else query in
    seconds <- timeRangeToSeconds timeRange ;;
    let opts :=
      mkOptions service query limit tail configPath seconds startDate endDate
                (arg_json a) None (negb (arg_no_colors a) && isTty stdout_is_terminal) in
    readConfig opts
  end.

End Args.

Arguments mkOptions {IniFile}.
Arguments service {IniFile}.
Arguments query {IniFile}.
Arguments limit {IniFile}.
Arguments tail {IniFile}.
Arguments configPath {IniFile}.
Arguments timeRange {IniFile}.
Arguments startDate {IniFile}.
Arguments endDate {IniFile}.
Arguments json {IniFile}.
Arguments serverConfig {IniFile}.
Arguments color {IniFile}.
Arguments readConfig {IniFile}.
Arguments parseArgs {IniFile}.

(* ================================================================== *)
(** ** The vocabulary of the specification

    The definitions of this part follow the words of the specification, not
    the code: a duration is a sequence of segments, each a group of digits
    and a unit; a bare time is [H:MM[:SS]] with an optional marker. *)

Module Spec.
Import Bytes.

(** One [<integer><unit>] segment. *)
Record segment := mkSegment { seg_digits : string; seg_unit : ascii }.

(** s=1, m=60, h=3600, d=86400, in either case. *)
Definition multiplier (u : ascii) : option Z :=
  if Ascii.eqb u "s" || Ascii.eqb u "S" then Some 1%Z
  else if Ascii.eqb u "m" || Ascii.eqb u "M" then Some 60%Z
  else if Ascii.eqb u "h" || Ascii.eqb u "H" then Some 3600%Z
  else if Ascii.eqb u "d" || Ascii.eqb u "D" then Some 86400%Z
  else None.

(** The number a group of decimal digits denotes, continuing from [n]. *)
Fixpoint decimalFrom (ds : string) (n : Z) : Z :=
  match ds with
  | EmptyString => n
  | String c ds' => decimalFrom ds' (n * 10 + (Z.of_nat (byte c) - 48))%Z
  end.

Definition value (sg : segment) : Z := decimalFrom (seg_digits sg) 0.

Definition seconds (sg : segment) : Z :=
  (value sg * match multiplier (seg_unit sg) with Some m => m | None => 0 end)%Z.

(** The sum over the segments of value times multiplier. *)
Fixpoint total (segs : list segment) : Z :=
  match segs with
  | [] => 0%Z
  | sg :: segs' => (seconds sg + total segs')%Z
  end.

Definition text (sg : segment) : string :=
  seg_digits sg ++ String (seg_unit sg) EmptyString.

(** The segments concatenated with no separators. *)
Fixpoint render (segs : list segment) : string :=
  match segs with
  | [] => EmptyString
  | sg :: segs' => text sg ++ render segs'
  end.

(** A segment is one or more digits followed by one of the units. *)
Definition is_segment (sg : segment) : Prop :=
  seg_digits sg <> EmptyString
  /\ all isDigit (seg_digits sg) = true
  /\ multiplier (seg_unit sg) <> None.

(** Its digit group is a number a Go [int] holds. *)
Definition fits (sg : segment) : Prop := (value sg <= Int.maxInt)%Z.

Definition digits_n (n : nat) (s : string) : Prop :=
  String.length s = n /\ all isDigit s = true.

(** The markers the pattern of [strToDate] lists. *)
Definition marker (m : string) : Prop :=
  m = "am" \/ m = "pm" \/ m = "AM" \/ m = "PM".

(** Any spelling of am or pm. *)
Definition marker_any_case (m : string) : Prop :=
  Strings.ToLower m = "am" \/ Strings.ToLower m = "pm".

(** [H:MM[:SS]], then optionally blanks and a marker. *)
Definition time_only (marker : string -> Prop) (s : string) : Prop :=
  exists h mm ss sp m,
    s = h ++ ":" ++ mm ++ ss ++ sp ++ m
    /\ (digits_n 1 h \/ digits_n 2 h)
    /\ digits_n 2 mm
    /\ (ss = EmptyString \/ exists d, ss = ":" ++ d /\ digits_n 2 d)
    /\ all isSpace sp = true
    /\ (m = EmptyString \/ marker m).

End Spec.

(** The bounds of the matches of a sequence of segments that starts at
    [pos]. *)
Fixpoint extents (pos : nat) (segs : list Spec.segment) : list (nat * nat) :=
  match segs with
  | [] => []
  | sg :: segs' =>
    let e := pos + String.length (Spec.text sg) in
    (pos, e) :: extents e segs'
  end.

(** The message of [timeRangeToSeconds]. *)
Definition cant_parse : string := "Time range can't be parsed".

(** What [timeRangeToSeconds] does with one part: [None] when it skips it
    ([len(part) > 1] fails), [Some (inl seconds)] when it adds [seconds],
    [Some (inr err)] when it calls [invalidArgs] with [err]. *)
Definition partSeconds (part : string) : option (Z + option error) :=
  if (1 <? String.length part)%nat then
    let unit := Bytes.drop (String.length part - 1) part in
    let numberStr := Bytes.slice 0 (String.length part - 1) part in
    match Strconv.Atoi numberStr with
    | inr err => Some (inr (Some err))
    | inl num =>
      let lower := Strings.ToLower unit in
      if String.eqb lower "s" then Some (inl num)
      else if String.eqb lower "m" then Some (inl (Int.mul num 60))
      else if String.eqb lower "h" then Some (inl (Int.mul num 3600))
      else if String.eqb lower "d" then Some (inl (Int.mul num 86400))
      else Some (inr None)
    end
  else None.

(* ================================================================== *)
(** ** A sample world, for concrete runs *)

Module Sample.

Definition usage : string := "usage: doglog [-h|--help] [-s|--service <value>]".

(** 4 January 2019, 12:30 and as many seconds as the clock was read. *)
Definition time_Now (k : nat) : Time := mkTime 2019 1 4 12 30 (Z.of_nat k) 0.

(** A date parser that knows two layouts of two inputs. *)
Definition dateparse_ParseLocal (s : string) : Time + error :=
  if String.eqb s "2019-01-04 1:32pm" then inl (mkTime 2019 1 4 13 32 0 0)
  else if String.eqb s "1/4/2019 12:30:00" then inl (mkTime 2019 1 4 12 30 0 0)
  else if String.eqb s "May 8 17:57:51" then inl (mkTime 0 5 8 17 57 51 0)
  else inr (ErrorString ("Could not find format for " ++ s)).

Definition user_Current : option User := Some (mkUser "/home/zach").

(** A configuration loader that succeeds with the path it was given. *)
Definition config_New (path : string) : string + error := inl path.

Definition no_arguments : arguments :=
  mkArguments None None None false None None None None false false.

Definition parseArgs (a : arguments) (stdout_is_terminal : bool) : M (options string) :=
  parseArgs usage (inl a) time_Now dateparse_ParseLocal user_Current config_New
            stdout_is_terminal.

(** [doglog -s send-email -q status:error] *)
Definition service_and_query : arguments :=
  mkArguments (Some "send-email") (Some "status:error") None false None None
              None None false false.

(** [doglog -t --start 1:32pm] *)
Definition tail_from_start : arguments :=
  mkArguments None None None true None None (Some "1:32pm") None false false.

(** [doglog -l -5] *)
Definition negative_limit : arguments :=
  mkArguments None None (Some (-5)%Z) false None None None None false false.

(** What a run with defaults returns, but for the service, the query, the
    start time and the reading of the clock. *)
Definition resolved (service query : string) (startDate : option Time)
    (endDate : Time) : options string :=
  mkOptions service query 300%Z false "/home/zach/.doglog" 7200%Z startDate
            (Some endDate) false (Some "/home/zach/.doglog") true.

(** A date parser that reads a time of day after a date, in either case. *)
Definition dateparse_dated (s : string) : Time + error :=
  if String.eqb (Strings.ToLower s) "2019-01-04 1:32pm"
  then inl (mkTime 2019 1 4 13 32 0 0)
  else inr (ErrorString ("Could not find format for " ++ s)).

(** [doglog --start yesterday], which the sample parser does not read. *)
Definition bad_start : arguments :=
  mkArguments None None None false None (Some "5x") (Some "yesterday") (Some "never")
              false false.

(** A configuration loader that finds no file. *)
Definition config_missing (path : string) : string + error :=
  inr (ErrorString ("open " ++ path ++ ": no such file or directory")).

End Sample.

(* ================================================================== *)
(** ** Parts as the specification speaks of them

    The scan yields parts; of a part the last byte is the unit and the bytes
    before it the digit group. *)

Definition part_unit (part : string) : string :=
  Bytes.drop (String.length part - 1) part.

Definition part_number (part : string) : string :=
  Bytes.slice 0 (String.length part - 1) part.

(** The unit is one of s, m, h, d, in either case. *)
Definition unit_known (unit : string) : bool :=
  let lower := Strings.ToLower unit in
  String.eqb lower "s" || String.eqb lower "m"
  || String.eqb lower "h" || String.eqb lower "d".

Definition number_parses (numberStr : string) : bool :=
  match Strconv.Atoi numberStr with
  | inl _ => true
  | inr _ => false
  end.

(** A part "whose unit is not one of {s,m,h,d} or whose digit group fails
    to parse as an integer". *)
Definition malformed (part : string) : Prop :=
  unit_known (part_unit part) = false \/ number_parses (part_number part) = false.

(** The duration parser returns the sum of the segments, read over the
    integers: for every sequence of segments, each with a digit group that
    a Go [int] holds. *)
Definition duration_is_exact_sum : Prop :=
  forall usage segs clock,
    Forall Spec.is_segment segs -> Forall Spec.fits segs ->
    timeRangeToSeconds usage (Spec.render segs) clock
    = Returns (Spec.total segs) clock.

(** The duration of a concatenation is the sum of the durations, read over
    the integers. *)
Definition duration_is_additive : Prop :=
  forall usage a b clock va vb,
    Forall Spec.is_segment a -> Forall Spec.fits a ->
    Forall Spec.is_segment b -> Forall Spec.fits b ->
    timeRangeToSeconds usage (Spec.render a) clock = Returns va clock ->
    timeRangeToSeconds usage (Spec.render b) clock = Returns vb clock ->
    timeRangeToSeconds usage (Spec.render a ++ Spec.render b) clock
    = Returns (va + vb)%Z clock.

(** Every input with a malformed part is fatal. *)
Definition malformed_is_fatal : Prop :=
  forall usage s clock,
    Exists (fun part => part <> EmptyString /\ malformed part)
           (FindAllString timeRangeRe s (-1)) ->
    exists stderr status, timeRangeToSeconds usage s clock = Exits stderr status.

(** A bare time with a marker in any spelling gets today's date in front
    before it is parsed. *)
Definition any_case_time_gets_today : Prop :=
  forall usage time_Now dateparse_ParseLocal s errorStr defaultToNow clock,
    Spec.time_only Spec.marker_any_case s ->
    strToDate usage time_Now dateparse_ParseLocal s errorStr defaultToNow clock
    = parseLocal usage time_Now dateparse_ParseLocal
                 (FormatDate (time_Now clock) ++ " " ++ s) errorStr (S clock).

(* ================================================================== *)
(** ** Further vocabulary: outcomes, tokens of a range, path elements *)

(** How a run may end without returning: through [invalidArgs] only, that
    is with status 1 and the usage text last on standard error; never by a
    panic. *)
Definition reported {A : Type} (usage : string) (o : outcome A) : Prop :=
  match o with
  | Returns _ _ => True
  | Exits stderr status => status = 1%Z /\ exists report, stderr = report ++ usage
  | Panics => False
  end.

(** The string [strToDate] gives to the date parser for a date string that
    is not empty: lines 116-119. *)
Definition handed (time_Now : nat -> Time) (dateStr : string) (clock : nat) : string :=
  if MatchString timeOnlyRe dateStr
  then FormatDate (time_Now clock) ++ " " ++ dateStr
  else dateStr.

(** A range as a sequence of tokens: whole segments and stray bytes. *)
Inductive token :=
| Seg (sg : Spec.segment)
| Stray (c : ascii).

(** An ASCII byte that is neither a digit nor a letter. *)
Definition is_stray (c : ascii) : bool :=
  (Bytes.byte c <? 128)%nat && negb (Bytes.isDigit c) && negb (Bytes.isLetter c).

Definition token_ok (t : token) : Prop :=
  match t with
  | Seg sg => Spec.is_segment sg /\ Spec.fits sg
  | Stray c => is_stray c = true
  end.

Fixpoint tokens_text (ts : list token) : string :=
  match ts with
  | [] => EmptyString
  | Seg sg :: ts' => Spec.text sg ++ tokens_text ts'
  | Stray c :: ts' => String c (tokens_text ts')
  end.

Fixpoint tokens_segments (ts : list token) : list Spec.segment :=
  match ts with
  | [] => []
  | Seg sg :: ts' => sg :: tokens_segments ts'
  | Stray _ :: ts' => tokens_segments ts'
  end.

(** The test of the loop of [timeRangeToSeconds]: [len(part) > 1]. *)
Definition long (part : string) : bool := (1 <? String.length part)%nat.

Definition no_slash (c : ascii) : bool := negb (Ascii.eqb c "/").

(** A name between separators that [filepath.Clean] keeps as it is. *)
Definition is_element (e : string) : Prop :=
  e <> EmptyString /\ e <> "." /\ e <> ".." /\ Bytes.all no_slash e = true.

(** An absolute path below the root, element by element. *)
Definition absolute (elements : list string) : string :=
  "/" ++ Strings.Join elements "/".

(* ================================================================== *)
(** * Concrete runs *)

Example Atoi_5 : Strconv.Atoi "5" = inl 5%Z.
Proof. reflexivity. Qed.
Example Atoi_5mi : Strconv.Atoi "5mi" = inr (NumError "Atoi" "5mi" ErrSyntax).
Proof. reflexivity. Qed.
Example Atoi_max : Strconv.Atoi "9223372036854775807" = inl Int.maxInt.
Proof. reflexivity. Qed.
Example Atoi_over :
  Strconv.Atoi "9223372036854775808" = inr (NumError "Atoi" "9223372036854775808" ErrRange).
Proof. reflexivity. Qed.
Example Atoi_empty :
  Strconv.Atoi EmptyString = inr (NumError "Atoi" EmptyString ErrSyntax).
Proof. reflexivity. Qed.
Example findall_1d2h30m : FindAllString timeRangeRe "1d2h30m" (-1) = ["1d"; "2h"; "30m"].
Proof. reflexivity. Qed.
Example findall_empty :
  FindAllString timeRangeRe EmptyString (-1) = [EmptyString].
Proof. reflexivity. Qed.
Example findall_punct : FindAllString timeRangeRe "-5h, 3m!" (-1)
  = [EmptyString; "5h"; EmptyString; "3m"; EmptyString].
Proof. reflexivity. Qed.
Example timeOnly_132pm : MatchString timeOnlyRe "1:32pm" = true.
Proof. reflexivity. Qed.
Example timeOnly_full : MatchString timeOnlyRe "11:32:07  AM" = true.
Proof. reflexivity. Qed.
Example timeOnly_date : MatchString timeOnlyRe "1/4/2019 12:30:00" = false.
Proof. reflexivity. Qed.
Example timeOnly_mixed : MatchString timeOnlyRe "1:32Pm" = false.
Proof. reflexivity. Qed.
Example Clean_dots : Filepath.Clean "/home/zach/./a//b/../c/" = "/home/zach/a/c".
Proof. reflexivity. Qed.
Example Clean_up : Filepath.Clean "a/../../b" = "../b".
Proof. reflexivity. Qed.
Example Clean_root : Filepath.Clean "/../x" = "/x".
Proof. reflexivity. Qed.
Example Join_home : Filepath.Join ["/home/zach"; ".doglog"] = "/home/zach/.doglog".
Proof. reflexivity. Qed.
Example FormatDate_ex :
  FormatDate (mkTime 2019 1 4 12 30 0 0) = "2019-01-04".
Proof. reflexivity. Qed.
Example FormatDate_ex2 :
  FormatDate (mkTime 12026 11 30 0 0 0 0) = "12026-11-30".
Proof. reflexivity. Qed.
Example parts_x : FindAllString timeRangeRe "x" (-1) = ["x"].
Proof. reflexivity. Qed.
Example parts_90 : FindAllString timeRangeRe "90" (-1) = ["90"].
Proof. reflexivity. Qed.
Example parts_utf8 :
  FindAllString timeRangeRe (String (ascii_of_nat 226) (String (ascii_of_nat 130)
                              (String (ascii_of_nat 172) "1h"))) (-1)
  = [EmptyString; "1h"].
Proof. reflexivity. Qed.

Example range_3d2h30m : timeRangeToSeconds Sample.usage "3d2h30m" 0 = Returns 268200%Z 0.
Proof. reflexivity. Qed.
Example range_upper : timeRangeToSeconds Sample.usage "2H30M" 0 = Returns 9000%Z 0.
Proof. reflexivity. Qed.
Example range_5 : timeRangeToSeconds Sample.usage "5" 0 = Returns 0%Z 0.
Proof. reflexivity. Qed.
Example range_90 :
  timeRangeToSeconds Sample.usage "90" 0
  = Exits ("Time range can't be parsed" ++ Bytes.newline ++ Bytes.newline ++ Sample.usage) 1.
Proof. reflexivity. Qed.
Example range_5min :
  timeRangeToSeconds Sample.usage "5min" 0
  = Exits ("Time range can't be parsed: strconv.Atoi: parsing " ++ Bytes.dquote ++ "5mi"
           ++ Bytes.dquote ++ ": invalid syntax" ++ Bytes.newline ++ Bytes.newline
           ++ Sample.usage) 1.
Proof. reflexivity. Qed.
Example range_trailing : timeRangeToSeconds Sample.usage "2h!" 0 = Returns 7200%Z 0.
Proof. reflexivity. Qed.

Example expand_default :
  expandPath Sample.user_Current "~/.doglog" 0 = Returns "/home/zach/.doglog" 0.
Proof. reflexivity. Qed.
Example expand_inner_tilde :
  expandPath Sample.user_Current "~/a/~/b" 0 = Returns "/home/zach/a/~/b" 0.
Proof. reflexivity. Qed.
Example expand_no_user : expandPath None "~/.doglog" 0 = Panics.
Proof. reflexivity. Qed.

Example date_time_only :
  strToDate Sample.usage Sample.time_Now Sample.dateparse_ParseLocal
            "1:32pm" "The --start date can't be parsed" false 0
  = Returns (Some (mkTime 2019 1 4 13 32 0 0)) 1.
Proof. reflexivity. Qed.
Example date_year_zero :
  strToDate Sample.usage Sample.time_Now Sample.dateparse_ParseLocal
            "May 8 17:57:51" "The --start date can't be parsed" false 0
  = Returns (Some (mkTime 2019 5 8 17 57 51 0)) 1.
Proof. reflexivity. Qed.
Example date_empty_start :
  strToDate Sample.usage Sample.time_Now Sample.dateparse_ParseLocal
            EmptyString "The --start date can't be parsed" false 0
  = Returns None 0.
Proof. reflexivity. Qed.
Example date_empty_end :
  strToDate Sample.usage Sample.time_Now Sample.dateparse_ParseLocal
            EmptyString "The --end date can't be parsed" true 0
  = Returns (Some (Sample.time_Now 0)) 1.
Proof. reflexivity. Qed.

Example run_defaults :
  Sample.parseArgs Sample.no_arguments true 0
  = Returns (mkOptions EmptyString EmptyString 300%Z false "/home/zach/.doglog" 7200%Z
                       None (Some (Sample.time_Now 0)) false
                       (Some "/home/zach/.doglog") true) 1.
Proof. reflexivity. Qed.

(* ================================================================== *)
(** * Go [int] arithmetic *)

Section IntFacts.
#[local] Open Scope Z_scope.

Lemma wrap_range (z : Z) : Int.in_range (Int.wrap z).
Proof.
  unfold Int.in_range, Int.wrap, Int.minInt, Int.maxInt, Int.intSize.
  pose proof (Z.mod_pos_bound (z + 2 ^ (64 - 1)) (2 ^ 64) eq_refl).
  change (2 ^ 64) with (2 * 2 ^ (64 - 1)) in *. lia.
Qed.

Lemma wrap_small (z : Z) : Int.in_range z -> Int.wrap z = z.
Proof.
  unfold Int.in_range, Int.wrap, Int.minInt, Int.maxInt, Int.intSize.
  intros H. rewrite Z.mod_small; [lia|].
  change (2 ^ 64) with (2 * 2 ^ (64 - 1)). lia.
Qed.

Lemma wrap_add_l (a b : Z) : Int.wrap (Int.wrap a + b) = Int.wrap (a + b).
Proof.
  unfold Int.wrap. f_equal.
  replace ((a + 2 ^ (Int.intSize - 1)) mod 2 ^ Int.intSize - 2 ^ (Int.intSize - 1)
           + b + 2 ^ (Int.intSize - 1))
    with ((a + 2 ^ (Int.intSize - 1)) mod 2 ^ Int.intSize + b) by lia.
  rewrite Zplus_mod_idemp_l. f_equal. lia.
Qed.

Lemma wrap_add_r (a b : Z) : Int.wrap (a + Int.wrap b) = Int.wrap (a + b).
Proof. rewrite Z.add_comm, wrap_add_l. f_equal. lia. Qed.

Lemma wrap_wrap (a : Z) : Int.wrap (Int.wrap a) = Int.wrap a.
Proof. apply wrap_small, wrap_range. Qed.

End IntFacts.

(* ================================================================== *)
(** * Byte strings *)

Section StringFacts.
Import Bytes.

Lemma append_nil_r (s : string) : s ++ EmptyString = s.
Proof. induction s; simpl; congruence. Qed.

Lemma append_assoc (a b c : string) : (a ++ b) ++ c = a ++ b ++ c.
Proof. induction a; simpl; congruence. Qed.

Lemma length_append (a b : string) :
  String.length (a ++ b) = String.length a + String.length b.
Proof. induction a; simpl; congruence. Qed.

Lemma drop_append (a b : string) : drop (String.length a) (a ++ b) = b.
Proof. induction a; simpl; auto. Qed.

Lemma substring_prefix (b c : string) :
  substring 0 (String.length b) (b ++ c) = b.
Proof. induction b; simpl; [destruct c; reflexivity | congruence]. Qed.

Lemma substring_middle (a b c : string) :
  substring (String.length a) (String.length b) (a ++ b ++ c) = b.
Proof. induction a; simpl; [apply substring_prefix | assumption]. Qed.

Lemma slice_middle (a b c : string) :
  slice (String.length a) (String.length a + String.length b) (a ++ b ++ c) = b.
Proof.
  unfold slice.
  replace (String.length a + String.length b - String.length a)
    with (String.length b) by lia.
  apply substring_middle.
Qed.

Lemma letter_not_digit (c : ascii) : isLetter c = true -> isDigit c = false.
Proof.
  destruct c as [[] [] [] [] [] [] [] []]; vm_compute; congruence.
Qed.

Lemma digit_not_letter (c : ascii) : isDigit c = true -> isLetter c = false.
Proof.
  destruct c as [[] [] [] [] [] [] [] []]; vm_compute; congruence.
Qed.

End StringFacts.

(* ================================================================== *)
(** * The matcher *)

Section RegexpFacts.
Import Bytes.

(** A match ends at or after the position it started from. *)
Lemma starClass_forward (A : Type) (p : ascii -> bool) (s : string) :
  forall pos (k : nat -> string -> option A) e,
    starClass p pos s k = Some e ->
    exists pos' s', pos <= pos' /\ k pos' s' = Some e.
Proof.
  induction s as [|c s IH]; intros pos k e H; simpl in H.
  - eauto.
  - destruct (p c); [|eauto].
    destruct (starClass p (S pos) s k) eqn:E.
    + inversion H; subst. apply IH in E as (pos' & s' & Hle & Hk).
      exists pos', s'. split; [lia | assumption].
    + eauto.
Qed.

Lemma rmatch_forward (A : Type) (r : regex) :
  forall pos s (k : nat -> string -> option A) e,
    rmatch r pos s k = Some e ->
    exists pos' s', pos <= pos' /\ k pos' s' = Some e.
Proof.
  induction r as [p | r1 IH1 r2 IH2 | r1 IH1 r2 IH2 | r1 IH1 | p | | ];
    intros pos s k e H; simpl in H.
  - destruct s as [|c s]; [discriminate|].
    destruct (p c); [|discriminate]. exists (S pos), s. split; [lia | assumption].
  - apply IH1 in H as (p1 & s1 & Hle1 & H).
    apply IH2 in H as (p2 & s2 & Hle2 & H).
    exists p2, s2. split; [lia | assumption].
  - destruct (rmatch r1 pos s k) eqn:E.
    + inversion H; subst. eauto.
    + eauto.
  - destruct (rmatch r1 pos s k) eqn:E.
    + inversion H; subst. eauto.
    + eauto.
  - eapply starClass_forward; eassumption.
  - destruct (pos =? 0)%nat; [eauto | discriminate].
  - destruct s; [eauto | discriminate].
Qed.

Lemma searchFrom_bounds (re : regex) (s : string) :
  forall pos skip m0 m1,
    searchFrom re pos s skip = Some (m0, m1) -> pos <= m0 <= m1.
Proof.
  induction s as [|c s IH]; intros pos skip m0 m1 H;
    destruct skip as [|skip]; cbn [searchFrom] in H; try discriminate.
  - destruct (rmatch re pos EmptyString (fun e _ => Some e)) eqn:E; [|discriminate].
    inversion H; subst.
    apply rmatch_forward in E as (p' & s' & Hle & E). inversion E; subst. lia.
  - destruct (rmatch re pos (String c s) (fun e _ => Some e)) eqn:E.
    + inversion H; subst.
      apply rmatch_forward in E as (p' & s' & Hle & E). inversion E; subst. lia.
    + apply IH in H. lia.
  - apply IH in H. lia.
Qed.

Lemma search_bounds (re : regex) (s : string) (pos m0 m1 : nat) :
  search re pos s = Some (m0, m1) -> pos <= m0 <= m1.
Proof. apply searchFrom_bounds. Qed.

(** [allMatches] terminates: the iterations that [FindAllString] allows are
    enough, more of them change nothing. *)
Lemma allMatches_fuel (re : regex) (s : string) (n : nat) :
  forall f1 f2 pos i prev,
    String.length s + 2 - pos <= f1 ->
    String.length s + 2 - pos <= f2 ->
    allMatches f1 re s n pos i prev = allMatches f2 re s n pos i prev.
Proof.
  induction f1 as [|f1 IH]; intros f2 pos i prev H1 H2.
  - destruct f2 as [|f2]; [reflexivity|]. simpl.
    destruct (Nat.leb_spec pos (String.length s)); [lia|].
    now rewrite andb_false_r.
  - destruct f2 as [|f2]; simpl.
    + destruct (Nat.leb_spec pos (String.length s)); [lia|].
      now rewrite andb_false_r.
    + destruct (i <? n)%nat; simpl; [|reflexivity].
      destruct (Nat.leb_spec pos (String.length s)) as [Hpos|]; [|reflexivity].
      destruct (search re pos (drop pos s)) as [[m0 m1]|] eqn:E; [|reflexivity].
      apply search_bounds in E.
      assert (Hnext : forall pos', pos < pos' ->
                forall i' prev', allMatches f1 re s n pos' i' prev'
                                 = allMatches f2 re s n pos' i' prev').
      { intros pos' Hlt i' prev'. apply IH; lia. }
      destruct (Nat.eqb_spec m1 pos) as [->|Hne]; simpl.
      * destruct (0 <? Utf8.runeWidth (drop pos s))%nat eqn:W.
        -- apply Nat.ltb_lt in W.
           rewrite !Hnext by lia. reflexivity.
        -- rewrite !Hnext by lia. reflexivity.
      * rewrite !Hnext by lia. reflexivity.
Qed.

(** The greedy star of a class takes the longest run of the class when the
    rest of the pattern accepts what follows. *)
Lemma starClass_run (A : Type) (p : ascii -> bool) (a b : string) :
  forall pos (k : nat -> string -> option A) e,
    all p a = true ->
    match b with String c _ => p c = false | EmptyString => True end ->
    k (pos + String.length a) b = Some e ->
    starClass p pos (a ++ b) k = Some e.
Proof.
  induction a as [|c a IH]; intros pos k e Ha Hb Hk; simpl in *.
  - rewrite Nat.add_0_r in Hk.
    destruct b as [|c b]; simpl; [assumption|]. now rewrite Hb.
  - apply andb_true_iff in Ha as [Hc Ha]. rewrite Hc.
    rewrite (IH (S pos) k e); auto.
    now replace (S pos + String.length a) with (pos + S (String.length a)) by lia.
Qed.

End RegexpFacts.

(* ================================================================== *)
(** * [strconv.Atoi] on a group of digits *)

Section AtoiFacts.
Import Bytes.
#[local] Open Scope Z_scope.

Lemma digit_value (c : ascii) :
  isDigit c = true -> 0 <= Z.of_nat (byte c) - 48 <= 9.
Proof.
  unfold isDigit. intros H. apply andb_true_iff in H as [H1 H2].
  apply Nat.leb_le in H1, H2. lia.
Qed.

Lemma decimalFrom_ge (ds : string) :
  forall n, all isDigit ds = true -> 0 <= n -> n <= Spec.decimalFrom ds n.
Proof.
  induction ds as [|c ds IH]; intros n Hd Hn; simpl in *; [lia|].
  apply andb_true_iff in Hd as [Hc Hd]. apply digit_value in Hc.
  specialize (IH (n * 10 + (Z.of_nat (byte c) - 48)) Hd). lia.
Qed.

Lemma parseDigits_decimal (ds : string) :
  forall n,
    all isDigit ds = true -> 0 <= n ->
    Spec.decimalFrom ds n <= Strconv.maxUint64 ->
    Strconv.parseDigits ds n = inl (Spec.decimalFrom ds n).
Proof.
  assert (Hmx : Strconv.maxUint64 = 18446744073709551615) by reflexivity.
  assert (Hcut : Strconv.maxUint64 / 10 + 1 = 1844674407370955162) by reflexivity.
  induction ds as [|c ds IH]; intros n Hd Hn Hmax;
    cbn [Strconv.parseDigits Spec.decimalFrom all] in *; [reflexivity|].
  apply andb_true_iff in Hd as [Hc Hd]. rewrite Hc. cbn [negb].
  pose proof (digit_value c Hc) as Hv.
  pose proof (decimalFrom_ge ds (n * 10 + (Z.of_nat (byte c) - 48)) Hd) as Hge.
  rewrite Hcut.
  destruct (Z.leb_spec 1844674407370955162 n); [lia|].
  destruct (Z.ltb_spec Strconv.maxUint64 (n * 10 + (Z.of_nat (byte c) - 48))); [lia|].
  apply IH; auto; lia.
Qed.

Lemma digit_not_sign (c : ascii) :
  isDigit c = true -> Ascii.eqb c "-" = false /\ Ascii.eqb c "+" = false.
Proof.
  destruct c as [[] [] [] [] [] [] [] []]; vm_compute; intuition congruence.
Qed.

(** A non-empty group of digits whose number a Go [int] holds parses to
    that number. *)
Lemma Atoi_digits (ds : string) :
  ds <> EmptyString -> all isDigit ds = true ->
  Spec.decimalFrom ds 0 <= Int.maxInt ->
  Strconv.Atoi ds = inl (Spec.decimalFrom ds 0).
Proof.
  intros Hne Hd Hmax. destruct ds as [|c r]; [congruence|].
  assert (Hc : isDigit c = true) by (simpl in Hd; now apply andb_true_iff in Hd).
  assert (Hmi : Int.maxInt = 9223372036854775807) by reflexivity.
  assert (Hmx : Strconv.maxUint64 = 18446744073709551615) by reflexivity.
  assert (Hp : 2 ^ (Int.intSize - 1) = 9223372036854775808) by reflexivity.
  unfold Strconv.Atoi.
  destruct (digit_not_sign c Hc) as [-> ->]. cbn [orb negb andb].
  unfold Strconv.ParseUint.
  rewrite parseDigits_decimal by (auto; lia).
  rewrite Hp.
  destruct (Z.leb_spec 9223372036854775808 (Spec.decimalFrom (String c r) 0)); [lia|].
  reflexivity.
Qed.

End AtoiFacts.

(* ================================================================== *)
(** * Parts and segments *)

Section SegmentFacts.
Import Bytes.

Lemma multiplier_unit (u : ascii) (m : Z) :
  Spec.multiplier u = Some m ->
  isLetter u = true
  /\ ((Strings.ToLower (String u EmptyString) = "s" /\ m = 1%Z)
      \/ (Strings.ToLower (String u EmptyString) = "m" /\ m = 60%Z)
      \/ (Strings.ToLower (String u EmptyString) = "h" /\ m = 3600%Z)
      \/ (Strings.ToLower (String u EmptyString) = "d" /\ m = 86400%Z)).
Proof.
  destruct u as [[] [] [] [] [] [] [] []]; vm_compute; intros H;
    try discriminate H; inversion H; subst; intuition.
Qed.

Lemma text_length (sg : Spec.segment) :
  String.length (Spec.text sg) = S (String.length (Spec.seg_digits sg)).
Proof. unfold Spec.text. rewrite length_append. simpl. lia. Qed.

Lemma text_unit (sg : Spec.segment) :
  drop (String.length (Spec.text sg) - 1) (Spec.text sg)
  = String (Spec.seg_unit sg) EmptyString.
Proof.
  rewrite text_length. unfold Spec.text.
  replace (S (String.length (Spec.seg_digits sg)) - 1)
    with (String.length (Spec.seg_digits sg)) by lia.
  apply drop_append.
Qed.

Lemma text_number (sg : Spec.segment) :
  slice 0 (String.length (Spec.text sg) - 1) (Spec.text sg) = Spec.seg_digits sg.
Proof.
  rewrite text_length. unfold Spec.text, slice.
  replace (S (String.length (Spec.seg_digits sg)) - 1 - 0)
    with (String.length (Spec.seg_digits sg)) by lia.
  apply substring_prefix.
Qed.

Lemma digits_nonempty_length (ds : string) :
  ds <> EmptyString -> 0 < String.length ds.
Proof. destruct ds; [congruence | simpl; lia]. Qed.

(** What the loop adds for the text of a segment. *)
Lemma partSeconds_segment (sg : Spec.segment) :
  Spec.is_segment sg -> Spec.fits sg ->
  exists v, partSeconds (Spec.text sg) = Some (inl v)
            /\ Int.wrap v = Int.wrap (Spec.seconds sg).
Proof.
  intros (Hne & Hd & Hu) Hfit. unfold partSeconds.
  rewrite text_unit, text_number, text_length.
  pose proof (digits_nonempty_length _ Hne) as Hlen.
  destruct (Nat.ltb_spec 1 (S (String.length (Spec.seg_digits sg)))); [|lia].
  rewrite (Atoi_digits _ Hne Hd Hfit).
  unfold Spec.seconds, Spec.value.
  destruct (Spec.multiplier (Spec.seg_unit sg)) as [m|] eqn:Em; [|congruence].
  apply multiplier_unit in Em as (_ & [(-> & ->) | [(-> & ->) | [(-> & ->) | (-> & ->)]]]);
    simpl; eexists; split; try reflexivity.
  - f_equal. lia.
  - unfold Int.mul. apply wrap_wrap.
  - unfold Int.mul. apply wrap_wrap.
  - unfold Int.mul. apply wrap_wrap.
Qed.

End SegmentFacts.

(* ================================================================== *)
(** * The scan of [timeRangeToSeconds] *)

Section ScanFacts.
Import Bytes.

Lemma search_here (re : regex) (pos : nat) (s : string) (e : nat) :
  rmatch re pos s (fun e _ => Some e) = Some e ->
  search re pos s = Some (pos, e).
Proof. intros H. unfold search. destruct s; cbn [searchFrom]; now rewrite H. Qed.

Lemma render_head (segs : list Spec.segment) :
  Forall Spec.is_segment segs ->
  match Spec.render segs with
  | String c _ => isLetter c = false
  | EmptyString => True
  end.
Proof.
  intros H. destruct H as [|sg segs (Hne & Hd & _) _]; simpl; [exact I|].
  unfold Spec.text. destruct (Spec.seg_digits sg) as [|c ds]; [congruence|].
  simpl in *. apply andb_true_iff in Hd as [Hc _]. now apply digit_not_letter.
Qed.

(** At the front of a segment the pattern matches exactly the segment. *)
Lemma match_segment (sg : Spec.segment) (segs : list Spec.segment) (pos : nat) :
  Spec.is_segment sg -> Forall Spec.is_segment segs ->
  search timeRangeRe pos (Spec.text sg ++ Spec.render segs)
  = Some (pos, pos + String.length (Spec.text sg)).
Proof.
  intros (Hne & Hd & Hu) Hsegs. apply search_here.
  unfold timeRangeRe, Spec.text. cbn [rmatch].
  rewrite append_assoc.
  destruct (Spec.multiplier (Spec.seg_unit sg)) as [m|] eqn:Em; [|congruence].
  apply multiplier_unit in Em as [Hl _].
  apply starClass_run; auto.
  - simpl. now apply letter_not_digit.
  - apply (starClass_run _ isLetter (String (Spec.seg_unit sg) EmptyString)).
    + simpl. now rewrite Hl.
    + now apply render_head.
    + rewrite length_append. simpl. f_equal. lia.
Qed.

(** The scan of a sequence of segments finds the segments, one match each;
    the empty match at the end of the text follows a match and is dropped. *)
Lemma allMatches_segments (segs : list Spec.segment) :
  forall pre fuel i prev,
    Forall Spec.is_segment segs ->
    i <= String.length pre ->
    String.length (pre ++ Spec.render segs) + 2 - String.length pre <= fuel ->
    (segs = [] -> prev = Z.of_nat (String.length pre)) ->
    allMatches fuel timeRangeRe (pre ++ Spec.render segs)
               (String.length (pre ++ Spec.render segs) + 1)
               (String.length pre) i prev
    = extents (String.length pre) segs.
Proof.
  induction segs as [|sg segs IH]; intros pre fuel i prev Hsegs Hi Hfuel Hprev.
  - simpl in *. rewrite append_nil_r in *.
    rewrite Hprev by reflexivity.
    destruct fuel as [|[|fuel]]; try lia. simpl.
    destruct (Nat.ltb_spec i (String.length pre + 1)); [|lia].
    rewrite Nat.leb_refl. simpl.
    replace (drop (String.length pre) pre) with EmptyString
      by (rewrite <- (append_nil_r pre) at 2; now rewrite drop_append).
    simpl. rewrite Nat.eqb_refl, Z.eqb_refl. simpl.
    destruct (Nat.leb_spec (String.length pre + 1) (String.length pre)); [lia|].
    now rewrite andb_false_r.
  - inversion Hsegs as [|? ? Hsg Hrest]; subst.
    cbn [Spec.render extents] in *.
    destruct fuel as [|fuel]; [rewrite !length_append, text_length in Hfuel; lia|].
    cbn [allMatches].
    destruct (Nat.ltb_spec i (String.length (pre ++ Spec.text sg ++ Spec.render segs) + 1))
      as [_|Hn]; [|rewrite length_append in Hn; lia].
    destruct (Nat.leb_spec (String.length pre)
                (String.length (pre ++ Spec.text sg ++ Spec.render segs)))
      as [_|Hn]; [|rewrite length_append in Hn; lia].
    cbn [andb]. rewrite drop_append, match_segment by assumption.
    pose proof (text_length sg) as Hlen.
    destruct (Nat.eqb_spec (String.length pre + String.length (Spec.text sg))
                           (String.length pre)); [lia|].
    cbn [andb negb]. f_equal.
    specialize (IH (pre ++ Spec.text sg) fuel (S i)
                   (Z.of_nat (String.length pre + String.length (Spec.text sg)))).
    rewrite append_assoc, length_append in IH. apply IH; auto.
    + lia.
    + rewrite !length_append in *. lia.
Qed.

Lemma slices_segments (segs : list Spec.segment) :
  forall pre,
    map (fun m => slice (fst m) (snd m) (pre ++ Spec.render segs))
        (extents (String.length pre) segs)
    = map Spec.text segs.
Proof.
  induction segs as [|sg segs IH]; intros pre; [reflexivity|].
  cbn [Spec.render extents map fst snd]. f_equal.
  - apply slice_middle.
  - specialize (IH (pre ++ Spec.text sg)).
    now rewrite append_assoc, length_append in IH.
Qed.

(** [FindAllString] on the text of a sequence of segments. *)
Lemma FindAllString_segments (segs : list Spec.segment) :
  Forall Spec.is_segment segs ->
  FindAllString timeRangeRe (Spec.render segs) (-1)
  = match segs with
    | [] => [EmptyString]
    | _ => map Spec.text segs
    end.
Proof.
  intros Hsegs. destruct segs as [|sg segs]; [reflexivity|].
  unfold FindAllString. cbn [Z.ltb Z.compare].
  pose proof (allMatches_segments (sg :: segs) EmptyString
                (String.length (Spec.render (sg :: segs)) + 2) 0 (-1) Hsegs) as H.
  cbn [append String.length] in H. rewrite H; try lia; try discriminate.
  apply (slices_segments (sg :: segs) EmptyString).
Qed.

End ScanFacts.

(* ================================================================== *)
(** * [timeRangeToSeconds] *)

Section TimeRangeFacts.
Import Bytes.
Variable usage : string.

(** One turn of the loop. *)
Lemma timeRangeLoop_cons (part : string) (parts : list string) (acc : Z) (clock : nat) :
  timeRangeLoop usage (part :: parts) acc clock
  = match partSeconds part with
    | None => timeRangeLoop usage parts acc clock
    | Some (inl v) => timeRangeLoop usage parts (Int.add acc v) clock
    | Some (inr err) => invalidArgs usage err cant_parse clock
    end.
Proof.
  cbn [timeRangeLoop]. unfold partSeconds.
  destruct (1 <? String.length part)%nat; [|reflexivity].
  destruct (Strconv.Atoi _); [|reflexivity].
  repeat match goal with |- context [String.eqb ?a ?b] => destruct (String.eqb a b) end;
    reflexivity.
Qed.

(** Over the texts of segments the loop adds up their seconds. *)
Lemma timeRangeLoop_segments (segs : list Spec.segment) :
  forall acc clock,
    Forall Spec.is_segment segs -> Forall Spec.fits segs ->
    timeRangeLoop usage (map Spec.text segs) (Int.wrap acc) clock
    = Returns (Int.wrap (acc + Spec.total segs)) clock.
Proof.
  induction segs as [|sg segs IH]; intros acc clock Hseg Hfit.
  - simpl. now rewrite Z.add_0_r.
  - inversion Hseg; inversion Hfit; subst.
    cbn [map Spec.total]. rewrite timeRangeLoop_cons.
    destruct (partSeconds_segment sg) as (v & -> & Hv); auto.
    assert (Hacc : Int.add (Int.wrap acc) v = Int.wrap (acc + Spec.seconds sg)).
    { unfold Int.add. now rewrite wrap_add_l, <- wrap_add_r, Hv, wrap_add_r. }
    rewrite Hacc, IH by assumption.
    now rewrite Z.add_assoc.
Qed.

(** The duration of a sequence of segments, as a Go [int]. *)
Lemma timeRangeToSeconds_segments (segs : list Spec.segment) (clock : nat) :
  Forall Spec.is_segment segs -> Forall Spec.fits segs ->
  timeRangeToSeconds usage (Spec.render segs) clock
  = Returns (Int.wrap (Spec.total segs)) clock.
Proof.
  intros Hseg Hfit. unfold timeRangeToSeconds.
  rewrite FindAllString_segments by assumption.
  destruct segs as [|sg segs]; [reflexivity|].
  change 0%Z with (Int.wrap 0).
  now rewrite timeRangeLoop_segments.
Qed.

Lemma render_app (a b : list Spec.segment) :
  Spec.render (a ++ b) = Spec.render a ++ Spec.render b.
Proof. induction a; simpl; [reflexivity | now rewrite IHa, append_assoc]. Qed.

Lemma total_app (a b : list Spec.segment) :
  Spec.total (a ++ b) = (Spec.total a + Spec.total b)%Z.
Proof. induction a; simpl; lia. Qed.

Lemma total_perm (a b : list Spec.segment) :
  Permutation a b -> Spec.total a = Spec.total b.
Proof. induction 1; simpl; lia. Qed.

Lemma total_nonneg (segs : list Spec.segment) :
  Forall Spec.is_segment segs -> (0 <= Spec.total segs)%Z.
Proof.
  induction 1 as [|sg segs (Hne & Hd & Hu) _ IH]; simpl; [lia|].
  assert (0 <= Spec.seconds sg)%Z; [|lia].
  unfold Spec.seconds, Spec.value.
  pose proof (decimalFrom_ge (Spec.seg_digits sg) 0 Hd).
  destruct (Spec.multiplier (Spec.seg_unit sg)) as [m|] eqn:Em; [|congruence].
  apply multiplier_unit in Em as (_ & [(_ & ->) | [(_ & ->) | [(_ & ->) | (_ & ->)]]]); lia.
Qed.

(** The loop stops at the first part it cannot read. *)
Lemma timeRangeLoop_fatal (parts : list string) :
  forall acc clock,
    Exists (fun part => (1 < String.length part)%nat /\ malformed part) parts ->
    exists err, timeRangeLoop usage parts acc clock
                = invalidArgs usage err cant_parse clock.
Proof.
  induction parts as [|part parts IH]; intros acc clock H; [inversion H|].
  rewrite timeRangeLoop_cons.
  destruct (partSeconds part) as [[v|err]|] eqn:E; [| eauto |].
  - apply Exists_cons in H as [(Hlen & Hbad)|H]; [|now apply IH].
    exfalso. unfold partSeconds in E.
    apply Nat.ltb_lt in Hlen. rewrite Hlen in E.
    unfold malformed, unit_known, number_parses, part_unit, part_number in Hbad.
    destruct (Strconv.Atoi _); [|discriminate].
    destruct Hbad as [Hbad|Hbad]; [|discriminate].
    apply orb_false_iff in Hbad as [Hbad Hd].
    apply orb_false_iff in Hbad as [Hbad Hh].
    apply orb_false_iff in Hbad as [Hs Hm].
    rewrite Hs, Hm, Hh, Hd in E. discriminate.
  - apply Exists_cons in H as [(Hlen & _)|H]; [|now apply IH].
    unfold partSeconds in E. apply Nat.ltb_lt in Hlen. rewrite Hlen in E.
    destruct (Strconv.Atoi _); [|discriminate].
    repeat match type of E with context [String.eqb ?a ?b] =>
             destruct (String.eqb a b); [discriminate|] end.
    discriminate.
Qed.

(** And returns when there is none. *)
Lemma timeRangeLoop_returns (parts : list string) :
  forall acc clock,
    Forall (fun part => ~ ((1 < String.length part)%nat /\ malformed part)) parts ->
    exists v, timeRangeLoop usage parts acc clock = Returns v clock.
Proof.
  induction parts as [|part parts IH]; intros acc clock H; [simpl; unfold ret; eauto|].
  inversion H as [|? ? Hok Hrest]; subst.
  rewrite timeRangeLoop_cons.
  destruct (partSeconds part) as [[v|err]|] eqn:E; auto.
  exfalso. apply Hok. unfold partSeconds in E.
  destruct (Nat.ltb_spec 1 (String.length part)); [|discriminate].
  split; [assumption|].
  unfold malformed, unit_known, number_parses, part_unit, part_number.
  destruct (Strconv.Atoi _); [|now right].
  left.
  repeat match type of E with context [String.eqb ?a ?b] =>
           destruct (String.eqb a b); [discriminate|] end.
  reflexivity.
Qed.

End TimeRangeFacts.

(* ================================================================== *)
(** * The duration parser: claims C3, C9 and C6 *)

Ltac segments :=
  repeat first
    [ apply Forall_nil
    | apply Forall_cons
    | (split; [discriminate | split; [reflexivity | discriminate]])
    | (unfold Spec.fits; vm_compute; discriminate) ].

(** C3, as amended.  For every string composed of zero or more
    [<integer><unit>] segments (units s, m, h, d in either case, multipliers
    1, 60, 3600, 86400) whose digit groups each denote a number that a Go
    [int] holds, [timeRangeToSeconds] returns the sum over the segments of
    value times multiplier as a 64-bit two's-complement [int]: the sum
    itself whenever it is at most [2^63 - 1].  In particular the empty
    string gives 0, ["2h"] gives 7200 and ["1d2h30m"] gives 95400. *)
Theorem C3_duration_sum (usage : string) (segs : list Spec.segment) (clock : nat) :
  Forall Spec.is_segment segs -> Forall Spec.fits segs ->
  timeRangeToSeconds usage (Spec.render segs) clock
  = Returns (Int.wrap (Spec.total segs)) clock
  /\ ((Spec.total segs <= Int.maxInt)%Z ->
      timeRangeToSeconds usage (Spec.render segs) clock
      = Returns (Spec.total segs) clock)
  /\ timeRangeToSeconds usage EmptyString clock = Returns 0%Z clock
  /\ timeRangeToSeconds usage "2h" clock = Returns 7200%Z clock
  /\ timeRangeToSeconds usage "1d2h30m" clock = Returns 95400%Z clock.
Proof.
  intros Hseg Hfit.
  pose proof (timeRangeToSeconds_segments usage segs clock Hseg Hfit) as H.
  split; [assumption|]. split; [|repeat split; reflexivity].
  intros Hmax. rewrite H. f_equal. apply wrap_small.
  pose proof (total_nonneg segs Hseg).
  unfold Int.in_range, Int.minInt, Int.maxInt, Int.intSize in *.
  change (2 ^ (64 - 1))%Z with 9223372036854775808%Z in *. lia.
Qed.

Lemma C3_duration_sum_witness :
  let segs := [Spec.mkSegment "3" "d"; Spec.mkSegment "2" "H"; Spec.mkSegment "30" "m"] in
  Forall Spec.is_segment segs /\ Forall Spec.fits segs
  /\ timeRangeToSeconds Sample.usage "3d2H30m" 0 = Returns 268200%Z 0.
Proof.
  intros segs.
  assert (Hseg : Forall Spec.is_segment segs) by (unfold segs; segments).
  assert (Hfit : Forall Spec.fits segs) by (unfold segs; segments).
  split; [exact Hseg|]. split; [exact Hfit|].
  exact (proj1 (C3_duration_sum Sample.usage segs 0 Hseg Hfit)).
Defined.

(** C3 as it is stated fails: two segments whose digit groups are Go
    [int]s and whose sum is [2^63] give [-2^63]; a digit group of twenty
    nines is fatal. *)
Lemma C3_counterexample :
  timeRangeToSeconds Sample.usage "9223372036854775807s1s" 0
  = Returns (-9223372036854775808)%Z 0
  /\ Spec.total [Spec.mkSegment "9223372036854775807" "s"; Spec.mkSegment "1" "s"]
     = 9223372036854775808%Z
  /\ timeRangeToSeconds Sample.usage "99999999999999999999s" 0
     = Exits (cant_parse ++ ": strconv.Atoi: parsing " ++ Bytes.dquote
              ++ "99999999999999999999" ++ Bytes.dquote ++ ": value out of range"
              ++ Bytes.newline ++ Bytes.newline ++ Sample.usage) 1
  /\ ~ duration_is_exact_sum.
Proof.
  split; [reflexivity|]. split; [reflexivity|]. split; [reflexivity|].
  intros H.
  specialize (H Sample.usage
                [Spec.mkSegment "9223372036854775807" "s"; Spec.mkSegment "1" "s"] 0).
  assert (Hr : forall a b : Z, Returns a 0 = Returns b 0 -> a = b)
    by (intros a b E; now inversion E).
  apply Hr in H; [discriminate H | segments | segments].
Qed.

(** C9, as amended.  For all strings [a] and [b] each composed of segments
    whose digit groups are Go [int]s, the duration of [a ++ b] is the sum
    of the durations of [a] and of [b] in 64-bit two's-complement
    arithmetic, so the sum itself when that is a Go [int]; it does not
    depend on the order of the segments; repeated units add up
    (["1h1h"] is two hours). *)
Theorem C9_duration_additive (usage : string) (a b : list Spec.segment) (clock : nat) :
  Forall Spec.is_segment a -> Forall Spec.fits a ->
  Forall Spec.is_segment b -> Forall Spec.fits b ->
  exists va vb,
    timeRangeToSeconds usage (Spec.render a) clock = Returns va clock
    /\ timeRangeToSeconds usage (Spec.render b) clock = Returns vb clock
    /\ timeRangeToSeconds usage (Spec.render a ++ Spec.render b) clock
       = Returns (Int.add va vb) clock
    /\ (Int.in_range (va + vb) ->
        timeRangeToSeconds usage (Spec.render a ++ Spec.render b) clock
        = Returns (va + vb)%Z clock)
    /\ (forall segs, Permutation (a ++ b) segs ->
          timeRangeToSeconds usage (Spec.render segs) clock
          = timeRangeToSeconds usage (Spec.render a ++ Spec.render b) clock)
    /\ timeRangeToSeconds usage "1h1h" clock = Returns 7200%Z clock.
Proof.
  intros Hsa Hfa Hsb Hfb.
  exists (Int.wrap (Spec.total a)), (Int.wrap (Spec.total b)).
  assert (Hab : timeRangeToSeconds usage (Spec.render a ++ Spec.render b) clock
                = Returns (Int.add (Int.wrap (Spec.total a)) (Int.wrap (Spec.total b))) clock).
  { rewrite <- render_app, timeRangeToSeconds_segments
      by (apply Forall_app; split; assumption).
    unfold Int.add. now rewrite total_app, wrap_add_l, wrap_add_r. }
  repeat split.
  - now apply timeRangeToSeconds_segments.
  - now apply timeRangeToSeconds_segments.
  - exact Hab.
  - intros Hr. rewrite Hab. unfold Int.add. now rewrite wrap_small.
  - intros segs Hp.
    rewrite <- render_app.
    rewrite !timeRangeToSeconds_segments;
      try (apply Forall_app; split; assumption);
      try (eapply Permutation_Forall; [eassumption|]; apply Forall_app; split; assumption).
    now rewrite (total_perm _ _ Hp).
Qed.

Lemma C9_duration_additive_witness :
  let a := [Spec.mkSegment "1" "h"; Spec.mkSegment "15" "m"] in
  let b := [Spec.mkSegment "1" "h"] in
  (Forall Spec.is_segment a /\ Forall Spec.fits a)
  /\ (Forall Spec.is_segment b /\ Forall Spec.fits b)
  /\ exists va vb,
       timeRangeToSeconds Sample.usage "1h15m" 0 = Returns va 0
       /\ timeRangeToSeconds Sample.usage "1h" 0 = Returns vb 0
       /\ timeRangeToSeconds Sample.usage "1h15m1h" 0 = Returns (Int.add va vb) 0.
Proof.
  intros a b.
  assert (Hsa : Forall Spec.is_segment a) by (unfold a; segments).
  assert (Hfa : Forall Spec.fits a) by (unfold a; segments).
  assert (Hsb : Forall Spec.is_segment b) by (unfold b; segments).
  assert (Hfb : Forall Spec.fits b) by (unfold b; segments).
  split; [split; assumption|]. split; [split; assumption|].
  destruct (C9_duration_additive Sample.usage a b 0 Hsa Hfa Hsb Hfb)
    as (va & vb & Ha & Hb & Hab & _).
  exists va, vb. repeat split; assumption.
Defined.

(** C9 as it is stated fails: 106751991167300 days and one day are each a
    duration the parser returns, their concatenation is not the sum. *)
Lemma C9_counterexample :
  timeRangeToSeconds Sample.usage "106751991167300d" 0 = Returns 9223372036854720000%Z 0
  /\ timeRangeToSeconds Sample.usage "1d" 0 = Returns 86400%Z 0
  /\ timeRangeToSeconds Sample.usage "106751991167300d1d" 0
     = Returns (-9223372036854745216)%Z 0
  /\ ~ duration_is_additive.
Proof.
  split; [reflexivity|]. split; [reflexivity|]. split; [reflexivity|].
  intros H.
  specialize (H Sample.usage [Spec.mkSegment "106751991167300" "d"]
                [Spec.mkSegment "1" "d"] 0 9223372036854720000%Z 86400%Z).
  assert (Hr : forall a b : Z, Returns a 0 = Returns b 0 -> a = b)
    by (intros a b E; now inversion E).
  apply Hr in H; [discriminate H | segments | segments | segments | segments
                 | reflexivity | reflexivity].
Qed.

(** What [invalidArgs] writes for a message that is not empty starts with
    the message and ends with the usage text. *)
Lemma invalidArgs_report (usage : string) (A : Type) (err : option error)
    (msg : string) (clock : nat) :
  msg <> EmptyString ->
  exists detail, @invalidArgs usage A err msg clock = Exits (msg ++ detail ++ usage) 1.
Proof.
  intros Hmsg. unfold invalidArgs, exit.
  destruct msg as [|c msg]; [congruence|]. cbn [String.length Nat.ltb Nat.leb].
  destruct err as [e|].
  - exists (": " ++ Error e ++ Bytes.newline ++ Bytes.newline).
    now rewrite !append_assoc.
  - exists (Bytes.newline ++ Bytes.newline). now rewrite !append_assoc.
Qed.

(** C6, as amended.  For every input whose scan yields a part of two or
    more bytes whose unit (its last byte) is not one of s, m, h, d in either
    case, or whose digit group (the bytes before the unit) [strconv.Atoi]
    does not parse, [timeRangeToSeconds] does not return: it writes "Time
    range can't be parsed", the cause if there is one and the usage text to
    standard error and exits with status 1.  In particular ["5x"] fails so.
    (A part of one byte is skipped.) *)
Theorem C6_malformed_part_fatal (usage : string) (s : string) (clock : nat) :
  Exists (fun part => (1 < String.length part)%nat /\ malformed part)
         (FindAllString timeRangeRe s (-1)) ->
  (exists detail,
     timeRangeToSeconds usage s clock = Exits (cant_parse ++ detail ++ usage) 1)
  /\ timeRangeToSeconds usage "5x" clock
     = Exits (cant_parse ++ Bytes.newline ++ Bytes.newline ++ usage) 1.
Proof.
  intros H. split; [|reflexivity].
  unfold timeRangeToSeconds.
  destruct (timeRangeLoop_fatal usage _ 0%Z clock H) as [err ->].
  apply invalidArgs_report. discriminate.
Qed.

Lemma C6_malformed_part_fatal_witness :
  Exists (fun part => (1 < String.length part)%nat /\ malformed part)
         (FindAllString timeRangeRe "1h5min" (-1))
  /\ exists detail,
       timeRangeToSeconds Sample.usage "1h5min" 0
       = Exits (cant_parse ++ detail ++ Sample.usage) 1.
Proof.
  assert (H : Exists (fun part => (1 < String.length part)%nat /\ malformed part)
                     (FindAllString timeRangeRe "1h5min" (-1))).
  { apply Exists_cons_tl, Exists_cons_hd. split; [simpl; lia | right; reflexivity]. }
  split; [exact H|].
  exact (proj1 (C6_malformed_part_fatal Sample.usage "1h5min" 0 H)).
Defined.

(** C6 as it is stated fails: the scan of ["x"] yields the part ["x"],
    whose unit is not one of s, m, h, d and whose digit group is empty, and
    the parser returns 0; so it does for the lone digit ["5"]. *)
Lemma C6_counterexample :
  FindAllString timeRangeRe "x" (-1) = ["x"]
  /\ unit_known (part_unit "x") = false
  /\ number_parses (part_number "x") = false
  /\ timeRangeToSeconds Sample.usage "x" 0 = Returns 0%Z 0
  /\ timeRangeToSeconds Sample.usage "5" 0 = Returns 0%Z 0
  /\ ~ malformed_is_fatal.
Proof.
  repeat (split; [reflexivity|]).
  intros H. destruct (H Sample.usage "x" 0) as (stderr & status & E).
  - apply Exists_cons_hd. split; [discriminate | left; reflexivity].
  - discriminate E.
Qed.

(** The converse of C6: when no part of two or more bytes is malformed the
    parser returns. *)
Lemma timeRangeToSeconds_returns (usage : string) (s : string) (clock : nat) :
  Forall (fun part => ~ ((1 < String.length part)%nat /\ malformed part))
         (FindAllString timeRangeRe s (-1)) ->
  exists v, timeRangeToSeconds usage s clock = Returns v clock.
Proof. intros H. now apply timeRangeLoop_returns. Qed.

(* ================================================================== *)
(** * Runs that return *)

Section MonadFacts.

Lemma bind_returns (A B : Type) (m : M A) (f : A -> M B) (clock clock' : nat) (b : B) :
  bind m f clock = Returns b clock' ->
  exists a c, m clock = Returns a c /\ f a c = Returns b clock'.
Proof.
  unfold bind. destruct (m clock) as [a c| |]; [eauto | discriminate | discriminate].
Qed.

Lemma invalidArgs_returns (usage : string) (A : Type) (err : option error)
    (msg : string) (clock clock' : nat) (a : A) :
  invalidArgs usage err msg clock = Returns a clock' -> False.
Proof. unfold invalidArgs, exit. discriminate. Qed.

Lemma ret_returns (A : Type) (a b : A) (clock clock' : nat) :
  ret a clock = Returns b clock' -> a = b /\ clock = clock'.
Proof. unfold ret. intros H. now inversion H. Qed.

End MonadFacts.

Section StrToDateFacts.
Variable usage : string.
Variable time_Now : nat -> Time.
Variable dateparse_ParseLocal : string -> Time + error.

(** A date that [parseLocal] returns is present; the clock is read at most
    once. *)
Lemma parseLocal_returns (dateStr errorStr : string) (clock clock' : nat) (d : option Time) :
  parseLocal usage time_Now dateparse_ParseLocal dateStr errorStr clock = Returns d clock' ->
  (exists t, d = Some t) /\ clock <= clock' <= S clock.
Proof.
  unfold parseLocal.
  destruct (dateparse_ParseLocal dateStr) as [t|err].
  - destruct (Year t =? 0)%Z; unfold bind, now, ret; intros H; inversion H; subst;
      split; eauto; lia.
  - intros H. now apply invalidArgs_returns in H.
Qed.

(** The clock only moves forward. *)
Lemma strToDate_clock (dateStr errorStr : string) (defaultToNow : bool)
    (clock clock' : nat) (d : option Time) :
  strToDate usage time_Now dateparse_ParseLocal dateStr errorStr defaultToNow clock
  = Returns d clock' ->
  clock <= clock'.
Proof.
  unfold strToDate.
  destruct (0 <? String.length dateStr)%nat.
  - destruct (MatchString timeOnlyRe dateStr).
    + unfold bind at 1, now. intros H. apply parseLocal_returns in H. lia.
    + intros H. apply parseLocal_returns in H. lia.
  - destruct defaultToNow; unfold bind, now, ret; intros H; inversion H; lia.
Qed.

(** A date string that is not empty gives a date, or the run ends. *)
Lemma strToDate_given (dateStr errorStr : string) (defaultToNow : bool)
    (clock clock' : nat) (d : option Time) :
  dateStr <> EmptyString ->
  strToDate usage time_Now dateparse_ParseLocal dateStr errorStr defaultToNow clock
  = Returns d clock' ->
  exists t, d = Some t.
Proof.
  intros Hne. unfold strToDate.
  destruct dateStr as [|c r]; [congruence|]. cbn [String.length Nat.ltb Nat.leb].
  destruct (MatchString timeOnlyRe (String c r)).
  - unfold bind at 1, now. intros H. now apply parseLocal_returns in H.
  - intros H. now apply parseLocal_returns in H.
Qed.

(** No date string: the current moment when [defaultToNow], absence
    otherwise. *)
Lemma strToDate_empty (errorStr : string) (defaultToNow : bool) (clock : nat) :
  strToDate usage time_Now dateparse_ParseLocal EmptyString errorStr defaultToNow clock
  = if defaultToNow then Returns (Some (time_Now clock)) (S clock)
    else Returns None clock.
Proof. destruct defaultToNow; reflexivity. Qed.

(** With [defaultToNow] the result is never absent. *)
Lemma strToDate_default_present (dateStr errorStr : string) (clock clock' : nat)
    (d : option Time) :
  strToDate usage time_Now dateparse_ParseLocal dateStr errorStr true clock
  = Returns d clock' ->
  exists t, d = Some t.
Proof.
  destruct dateStr as [|c r].
  - rewrite strToDate_empty. intros H. inversion H. eauto.
  - apply strToDate_given. discriminate.
Qed.

Lemma timeRangeLoop_clock (parts : list string) :
  forall acc clock clock' v,
    timeRangeLoop usage parts acc clock = Returns v clock' -> clock' = clock.
Proof.
  induction parts as [|part parts IH]; intros acc clock clock' v.
  - simpl. unfold ret. intros H. now inversion H.
  - rewrite timeRangeLoop_cons.
    destruct (partSeconds part) as [[s|err]|]; eauto.
    intros H. now apply invalidArgs_returns in H.
Qed.

End StrToDateFacts.

Section ParseArgsFacts.
Variable IniFile : Type.
Variable usage : string.
Variable time_Now : nat -> Time.
Variable dateparse_ParseLocal : string -> Time + error.
Variable user_Current : option User.
Variable config_New : string -> IniFile + error.
Variable stdout_is_terminal : bool.

(** The stages of a run of [parseArgs] that returns. *)
Lemma parseArgs_returns (a : arguments) (clock clock' : nat) (opts : options IniFile) :
  parseArgs usage (inl a) time_Now dateparse_ParseLocal user_Current config_New
            stdout_is_terminal clock = Returns opts clock' ->
  exists defaultConfigPath c1 cfg,
    expandPath user_Current DefaultConfigPath clock = Returns defaultConfigPath clock
    /\ strToDate usage time_Now dateparse_ParseLocal (arg EmptyString (arg_start a))
                 "The --start date can't be parsed" false clock
       = Returns (startDate opts) c1
    /\ strToDate usage time_Now dateparse_ParseLocal (arg EmptyString (arg_end a))
                 "The --end date can't be parsed" true c1
       = Returns (endDate opts) clock'
    /\ timeRangeToSeconds usage (arg DefaultRange (arg_range a)) clock'
       = Returns (timeRange opts) clock'
    /\ config_New (configPath opts) = inl cfg
    /\ serverConfig opts = Some cfg
    /\ configPath opts = arg defaultConfigPath (arg_config a)
    /\ service opts = arg EmptyString (arg_service a)
    /\ query opts
       = (let service := arg EmptyString (arg_service a) in
          let query := arg EmptyString (arg_query a) in
          if (0 <? String.length service)%nat then
            if (0 <? String.length query)%nat
            then ("service:" ++ service) ++ " AND " ++ query
            else "service:" ++ service
          else query)
    /\ limit opts
       = (let limit := arg DefaultLimit (arg_limit a) in
          if (limit <=? 0)%Z then DefaultLimit else limit)
    /\ tail opts = match startDate opts with Some _ => false | None => arg_tail a end
    /\ json opts = arg_json a
    /\ color opts = negb (arg_no_colors a) && isTty stdout_is_terminal.
Proof.
  unfold parseArgs. intros H.
  apply bind_returns in H as (dcp & c0 & Hexp & H).
  assert (c0 = clock) as ->.
  { unfold expandPath in Hexp. destruct (Strings.HasPrefix _ _).
    - destruct user_Current; [|discriminate]. now inversion Hexp.
    - now inversion Hexp. }
  apply bind_returns in H as (sd & c1 & Hstart & H).
  apply bind_returns in H as (ed & c2 & Hend & H).
  apply bind_returns in H as (secs & c3 & Hrange & H).
  pose proof (timeRangeLoop_clock _ _ _ _ _ _ Hrange) as ->.
  unfold readConfig in H. cbn [configPath] in H.
  destruct (config_New (arg dcp (arg_config a))) as [cfg|err] eqn:Hcfg;
    [|now apply invalidArgs_returns in H].
  apply ret_returns in H as [<- <-]. cbn.
  exists dcp, c1, cfg. repeat split; assumption.
Qed.

(** And the other way round: when the home directory is known, both dates
    are read, the range is read and the configuration loads, the run
    returns the options. *)
Lemma parseArgs_runs (a : arguments) (usr : User) (clock c1 c2 : nat)
    (start end_ : option Time) (seconds : Z) (cfg : IniFile) :
  user_Current = Some usr ->
  let defaultConfigPath := Filepath.Join [HomeDir usr; ".doglog"] in
  strToDate usage time_Now dateparse_ParseLocal (arg EmptyString (arg_start a))
            "The --start date can't be parsed" false clock = Returns start c1 ->
  strToDate usage time_Now dateparse_ParseLocal (arg EmptyString (arg_end a))
            "The --end date can't be parsed" true c1 = Returns end_ c2 ->
  timeRangeToSeconds usage (arg DefaultRange (arg_range a)) c2 = Returns seconds c2 ->
  config_New (arg defaultConfigPath (arg_config a)) = inl cfg ->
  exists opts,
    parseArgs usage (inl a) time_Now dateparse_ParseLocal user_Current config_New
              stdout_is_terminal clock = Returns opts c2
    /\ startDate opts = start /\ endDate opts = end_ /\ timeRange opts = seconds
    /\ serverConfig opts = Some cfg.
Proof.
  intros Hu dcp Hstart Hend Hrange Hcfg.
  unfold parseArgs, bind, expandPath. rewrite Hu. cbn [Strings.HasPrefix DefaultConfigPath
    Ascii.eqb Bool.eqb andb ret Bytes.drop].
  fold dcp. rewrite Hstart, Hend, Hrange.
  unfold readConfig. cbn [configPath]. rewrite Hcfg.
  eexists. split; [reflexivity|]. cbn. repeat split.
Qed.

End ParseArgsFacts.

(* ================================================================== *)
(** * The resolution: claims C1, C2, C5, C7 and C10 *)

Section ResolutionClaims.
Variable IniFile : Type.
Variable usage : string.
Variable time_Now : nat -> Time.
Variable dateparse_ParseLocal : string -> Time + error.
Variable user_Current : option User.
Variable config_New : string -> IniFile + error.
Variable stdout_is_terminal : bool.

(** C1.  In every run of the resolution that returns: when a service was
    given, the query is ["service:"] followed by the service, and then
    [" AND "] and the user's query when that is not empty; when no service
    was given the query is the user's, unchanged.  With service
    ["send-email"] and query ["status:error"] the query is
    ["service:send-email AND status:error"]. *)
Theorem C1_service_query (a : arguments) (clock clock' : nat) (opts : options IniFile) :
  parseArgs usage (inl a) time_Now dateparse_ParseLocal user_Current config_New
            stdout_is_terminal clock = Returns opts clock' ->
  let service := arg EmptyString (arg_service a) in
  let userQuery := arg EmptyString (arg_query a) in
  (service <> EmptyString -> userQuery <> EmptyString ->
   query opts = "service:" ++ service ++ " AND " ++ userQuery)
  /\ (service <> EmptyString -> userQuery = EmptyString ->
      query opts = "service:" ++ service)
  /\ (service = EmptyString -> query opts = userQuery)
  /\ (service = "send-email" -> userQuery = "status:error" ->
      query opts = "service:send-email AND status:error").
Proof.
  intros H service userQuery.
  apply parseArgs_returns in H
    as (_ & _ & _ & _ & _ & _ & _ & _ & _ & _ & _ & Hq & _).
  fold service userQuery in Hq. cbv zeta in Hq. rewrite Hq.
  repeat split.
  - intros Hs Hu. destruct service; [congruence|]. destruct userQuery; [congruence|].
    cbn [String.length Nat.ltb Nat.leb]. now rewrite append_assoc.
  - intros Hs ->. destruct service; [congruence|]. reflexivity.
  - intros ->. reflexivity.
  - intros -> ->. reflexivity.
Qed.

(** C2.  In every run of the resolution that returns with a start time
    that is present, [tail] is false, whatever the user's tail flag; a
    start string that is not empty always gives such a run. *)
Theorem C2_start_disables_tail (a : arguments) (clock clock' : nat)
    (opts : options IniFile) :
  parseArgs usage (inl a) time_Now dateparse_ParseLocal user_Current config_New
            stdout_is_terminal clock = Returns opts clock' ->
  (startDate opts <> None -> tail opts = false)
  /\ (arg EmptyString (arg_start a) <> EmptyString ->
      startDate opts <> None /\ tail opts = false)
  /\ (startDate opts = None -> tail opts = arg_tail a).
Proof.
  intros H.
  apply parseArgs_returns in H
    as (_ & c1 & _ & _ & Hstart & _ & _ & _ & _ & _ & _ & _ & _ & Ht & _).
  split; [|split].
  - intros Hs. rewrite Ht. destruct (startDate opts); congruence.
  - intros Hne. apply strToDate_given in Hstart as [t Hs]; [|assumption].
    rewrite Ht, Hs. split; congruence.
  - intros Hs. now rewrite Ht, Hs.
Qed.

(** C5, as the code has it.  In every run of the resolution that returns,
    [color] is the negation of the no-colors flag, whatever the output
    stream is: [isTty] answers [true] without looking at it.  So [color] is
    true for output that is not a terminal when the flag is not given. *)
Theorem C5_color_ignores_terminal (a : arguments) (clock clock' : nat)
    (opts : options IniFile) :
  parseArgs usage (inl a) time_Now dateparse_ParseLocal user_Current config_New
            stdout_is_terminal clock = Returns opts clock' ->
  color opts = negb (arg_no_colors a)
  /\ (stdout_is_terminal = false -> arg_no_colors a = false -> color opts = true).
Proof.
  intros H.
  apply parseArgs_returns in H
    as (_ & _ & _ & _ & _ & _ & _ & _ & _ & _ & _ & _ & _ & _ & _ & Hc).
  unfold isTty in Hc. rewrite andb_true_r in Hc.
  split; [assumption|]. intros _ Hn. now rewrite Hc, Hn.
Qed.

(** A limit that is not positive and the default limit give the same
    run. *)
Lemma parseArgs_limit (a : arguments) (l : Z) (clock : nat) :
  (l <= 0)%Z ->
  parseArgs usage (inl (set_limit a (Some l))) time_Now dateparse_ParseLocal
            user_Current config_New stdout_is_terminal clock
  = parseArgs usage (inl (set_limit a (Some DefaultLimit))) time_Now
              dateparse_ParseLocal user_Current config_New stdout_is_terminal clock.
Proof.
  intros Hl. unfold parseArgs, set_limit. cbn [arg arg_service arg_query arg_limit
    arg_tail arg_config arg_range arg_start arg_end arg_json arg_no_colors].
  destruct (Z.leb_spec l 0); [|lia]. reflexivity.
Qed.

(** C7.  In every run of the resolution that returns the limit is
    positive; a limit of the user that is zero or negative is replaced by
    the default limit 300, and the run is the run with limit 300: the
    replacement adds no error. *)
Theorem C7_limit_positive (a : arguments) (clock clock' : nat) (opts : options IniFile) :
  parseArgs usage (inl a) time_Now dateparse_ParseLocal user_Current config_New
            stdout_is_terminal clock = Returns opts clock' ->
  (0 < limit opts)%Z
  /\ (forall l, arg_limit a = Some l -> (l <= 0)%Z ->
        limit opts = 300%Z
        /\ parseArgs usage (inl (set_limit a (Some 300%Z))) time_Now
                     dateparse_ParseLocal user_Current config_New
                     stdout_is_terminal clock
           = Returns opts clock')
  /\ (forall l, arg_limit a = Some l -> (0 < l)%Z -> limit opts = l).
Proof.
  intros H.
  pose proof H as Hrun.
  apply parseArgs_returns in H
    as (_ & _ & _ & _ & _ & _ & _ & _ & _ & _ & _ & _ & Hl & _).
  cbv zeta in Hl. unfold DefaultLimit in *.
  split; [|split].
  - rewrite Hl. destruct (arg 300%Z (arg_limit a) <=? 0)%Z eqn:E; [lia|].
    apply Z.leb_gt in E. lia.
  - intros l Ha Hneg. split.
    + rewrite Hl, Ha. simpl. destruct (Z.leb_spec l 0); [reflexivity | lia].
    + assert (Hset : set_limit a (Some l) = a) by (destruct a; simpl in *; now subst).
      pose proof (parseArgs_limit a l clock Hneg) as E.
      rewrite Hset in E. unfold DefaultLimit in E. now rewrite <- E.
  - intros l Ha Hpos. rewrite Hl, Ha. simpl.
    destruct (Z.leb_spec l 0); [lia | reflexivity].
Qed.

(** C10.  In every run of the resolution that returns, the end time is
    present.  When the user gave no end string it is a reading of the clock
    taken during the run, and the first reading when no start string was
    given either, in which case the start time is absent. *)
Theorem C10_end_present (a : arguments) (clock clock' : nat) (opts : options IniFile) :
  parseArgs usage (inl a) time_Now dateparse_ParseLocal user_Current config_New
            stdout_is_terminal clock = Returns opts clock' ->
  (exists t, endDate opts = Some t)
  /\ (arg EmptyString (arg_end a) = EmptyString ->
      exists k, clock <= k < clock' /\ endDate opts = Some (time_Now k))
  /\ (arg EmptyString (arg_end a) = EmptyString ->
      arg EmptyString (arg_start a) = EmptyString ->
      startDate opts = None /\ endDate opts = Some (time_Now clock)).
Proof.
  intros H.
  apply parseArgs_returns in H as (_ & c1 & _ & _ & Hstart & Hend & _).
  split; [|split].
  - eapply strToDate_default_present; eassumption.
  - intros He. rewrite He, strToDate_empty in Hend.
    apply strToDate_clock in Hstart.
    inversion Hend; subst. exists c1. split; [lia | reflexivity].
  - intros He Hs.
    rewrite Hs, strToDate_empty in Hstart. inversion Hstart; subst.
    rewrite He, strToDate_empty in Hend. inversion Hend. now split.
Qed.

End ResolutionClaims.

Lemma C1_service_query_witness :
  let opts := Sample.resolved "send-email" "service:send-email AND status:error"
                              None (Sample.time_Now 0) in
  Sample.parseArgs Sample.service_and_query true 0 = Returns opts 1
  /\ query opts = "service:send-email AND status:error".
Proof.
  intros opts.
  assert (H : Sample.parseArgs Sample.service_and_query true 0 = Returns opts 1)
    by reflexivity.
  split; [exact H|].
  destruct (C1_service_query _ _ _ _ _ _ _ _ _ _ _ H) as (H1 & _).
  apply H1; discriminate.
Defined.

Lemma C2_start_disables_tail_witness :
  let opts := Sample.resolved EmptyString EmptyString
                              (Some (mkTime 2019 1 4 13 32 0 0)) (Sample.time_Now 1) in
  arg_tail Sample.tail_from_start = true
  /\ Sample.parseArgs Sample.tail_from_start true 0 = Returns opts 2
  /\ tail opts = false.
Proof.
  intros opts. split; [reflexivity|].
  assert (H : Sample.parseArgs Sample.tail_from_start true 0 = Returns opts 2)
    by reflexivity.
  split; [exact H|].
  destruct (C2_start_disables_tail _ _ _ _ _ _ _ _ _ _ _ H) as (H1 & _).
  apply H1. discriminate.
Defined.

Lemma C5_color_ignores_terminal_witness :
  let opts := Sample.resolved EmptyString EmptyString None (Sample.time_Now 0) in
  Sample.parseArgs Sample.no_arguments false 0 = Returns opts 1
  /\ color opts = true.
Proof.
  intros opts.
  assert (H : Sample.parseArgs Sample.no_arguments false 0 = Returns opts 1)
    by reflexivity.
  split; [exact H|].
  destruct (C5_color_ignores_terminal _ _ _ _ _ _ _ _ _ _ _ H) as (_ & H2).
  apply H2; reflexivity.
Defined.

Lemma C7_limit_positive_witness :
  let opts := Sample.resolved EmptyString EmptyString None (Sample.time_Now 0) in
  Sample.parseArgs Sample.negative_limit true 0 = Returns opts 1
  /\ (0 < limit opts)%Z /\ limit opts = 300%Z.
Proof.
  intros opts.
  assert (H : Sample.parseArgs Sample.negative_limit true 0 = Returns opts 1)
    by reflexivity.
  split; [exact H|].
  destruct (C7_limit_positive _ _ _ _ _ _ _ _ _ _ _ H) as (H1 & H2 & _).
  split; [exact H1|].
  apply (H2 (-5)%Z); [reflexivity | discriminate].
Defined.

Lemma C10_end_present_witness :
  let opts := Sample.resolved EmptyString EmptyString None (Sample.time_Now 0) in
  Sample.parseArgs Sample.no_arguments true 0 = Returns opts 1
  /\ endDate opts = Some (Sample.time_Now 0).
Proof.
  intros opts.
  assert (H : Sample.parseArgs Sample.no_arguments true 0 = Returns opts 1)
    by reflexivity.
  split; [exact H|].
  destruct (C10_end_present _ _ _ _ _ _ _ _ _ _ _ H) as (_ & _ & H3).
  apply H3; reflexivity.
Defined.

(* ================================================================== *)
(** * [expandPath]: claim C8 *)

Section ExpandPathFacts.

Lemma HasPrefix_spec (s prefix : string) :
  Strings.HasPrefix s prefix = true <-> exists rest, s = prefix ++ rest.
Proof.
  revert s. induction prefix as [|p prefix IH]; intros s; simpl.
  - split; eauto.
  - destruct s as [|c s].
    + split; [discriminate | intros [rest H]; discriminate].
    + rewrite andb_true_iff, IH. split.
      * intros [Hc [rest ->]]. apply Ascii.eqb_eq in Hc as ->. eauto.
      * intros [rest H]. inversion H; subst. rewrite Ascii.eqb_refl. eauto.
Qed.

(** C8.  For every path: a path that begins with ["~/"] becomes the home
    directory of the current user joined ([filepath.Join]) with what follows
    the two bytes; every other path is returned as it is, so a [~] elsewhere
    is not rewritten, and ["/etc/~/foo"] is unchanged. *)
Theorem C8_expand_prefix_only (user_Current : option User) (usr : User) (clock : nat) :
  user_Current = Some usr ->
  (forall rest,
     expandPath user_Current ("~/" ++ rest) clock
     = Returns (Filepath.Join [HomeDir usr; rest]) clock)
  /\ (forall path,
        (forall rest, path <> "~/" ++ rest) ->
        expandPath user_Current path clock = Returns path clock)
  /\ expandPath user_Current "/etc/~/foo" clock = Returns "/etc/~/foo" clock
  /\ (forall rest,
        HomeDir usr <> EmptyString ->
        Filepath.Join [HomeDir usr; rest]
        = Filepath.Clean (HomeDir usr ++ "/" ++ rest)).
Proof.
  intros ->. split; [|split; [|split]].
  - intros rest. reflexivity.
  - intros path Hno. unfold expandPath.
    destruct (Strings.HasPrefix path "~/") eqn:E; [|reflexivity].
    apply HasPrefix_spec in E as [rest ->]. now destruct (Hno rest).
  - reflexivity.
  - intros rest Hne. unfold Filepath.Join.
    destruct (HomeDir usr); [congruence | reflexivity].
Qed.

End ExpandPathFacts.

Lemma C8_expand_prefix_only_witness :
  Sample.user_Current = Some (mkUser "/home/zach")
  /\ expandPath Sample.user_Current "~/.doglog" 0 = Returns "/home/zach/.doglog" 0
  /\ expandPath Sample.user_Current "/var/~/log" 0 = Returns "/var/~/log" 0.
Proof.
  split; [reflexivity|].
  destruct (C8_expand_prefix_only Sample.user_Current (mkUser "/home/zach") 0 eq_refl)
    as (H1 & H2 & _).
  split.
  - exact (H1 ".doglog").
  - apply H2. intros rest. discriminate.
Defined.

(** Without a prefix the path is returned even when there is no current
    user. *)
Lemma expandPath_no_prefix (user_Current : option User) (path : string) (clock : nat) :
  Strings.HasPrefix path "~/" = false ->
  expandPath user_Current path clock = Returns path clock.
Proof. intros H. unfold expandPath. now rewrite H. Qed.

(* ================================================================== *)
(** * The matcher against the meaning of patterns *)

Section MatcherCorrect.
Import Bytes.
Variable A : Type.

(** What the matcher finds is a match. *)
Lemma starClass_sound (p : ascii -> bool) (s : string) :
  forall pos (k : nat -> string -> option A) e,
    starClass p pos s k = Some e ->
    exists w rest, s = w ++ rest /\ all p w = true
                   /\ k (pos + String.length w) rest = Some e.
Proof.
  induction s as [|c s IH]; intros pos k e H; cbn [starClass] in H.
  - exists EmptyString, EmptyString. rewrite Nat.add_0_r. auto.
  - assert (Hk : k pos (String c s) = Some e ->
                 exists w rest, String c s = w ++ rest /\ all p w = true
                                /\ k (pos + String.length w) rest = Some e).
    { intros Hk. exists EmptyString, (String c s). rewrite Nat.add_0_r. auto. }
    destruct (p c) eqn:Hc; [|auto].
    destruct (starClass p (S pos) s k) eqn:E; [|auto].
    inversion H; subst. apply IH in E as (w & rest & -> & Hw & Hk').
    exists (String c w), rest. simpl. rewrite Hc, Hw.
    replace (pos + S (String.length w)) with (S pos + String.length w) by lia. auto.
Qed.

Lemma rmatch_sound (r : regex) :
  forall pos s (k : nat -> string -> option A) e,
    rmatch r pos s k = Some e ->
    exists w rest, s = w ++ rest /\ denotes r pos w rest
                   /\ k (pos + String.length w) rest = Some e.
Proof.
  induction r as [p | r1 IH1 r2 IH2 | r1 IH1 r2 IH2 | r1 IH1 | p | | ];
    intros pos s k e H; cbn [rmatch] in H.
  - destruct s as [|c s]; [discriminate|]. destruct (p c) eqn:Hc; [|discriminate].
    exists (String c EmptyString), s. simpl.
    replace (pos + 1) with (S pos) by lia. auto using denotes_class.
  - apply IH1 in H as (w1 & rest1 & -> & H1 & H).
    apply IH2 in H as (w2 & rest & -> & H2 & H).
    exists (w1 ++ w2), rest. rewrite append_assoc, length_append, Nat.add_assoc.
    auto using denotes_cat.
  - destruct (rmatch r1 pos s k) eqn:E.
    + inversion H; subst. apply IH1 in E as (w & rest & -> & H1 & Hk).
      exists w, rest. auto using denotes_alt_l.
    + apply IH2 in H as (w & rest & -> & H2 & Hk).
      exists w, rest. auto using denotes_alt_r.
  - destruct (rmatch r1 pos s k) eqn:E.
    + inversion H; subst. apply IH1 in E as (w & rest & -> & H1 & Hk).
      exists w, rest. auto using denotes_quest.
    + exists EmptyString, s. rewrite Nat.add_0_r. auto using denotes_quest_empty.
  - apply starClass_sound in H as (w & rest & -> & Hw & Hk).
    exists w, rest. auto using denotes_star.
  - destruct (Nat.eqb_spec pos 0) as [->|]; [|discriminate].
    exists EmptyString, s. auto using denotes_bol.
  - destruct s; [|discriminate].
    exists EmptyString, EmptyString. rewrite Nat.add_0_r. auto using denotes_eol.
Qed.

(** Where there is a match that the rest of the pattern accepts, the
    matcher finds one. *)
Lemma starClass_complete (p : ascii -> bool) (w rest : string) :
  forall pos (k : nat -> string -> option A) e,
    all p w = true ->
    k (pos + String.length w) rest = Some e ->
    exists e', starClass p pos (w ++ rest) k = Some e'.
Proof.
  induction w as [|c w IH]; intros pos k e Hw Hk.
  - simpl in *. rewrite Nat.add_0_r in Hk.
    destruct rest as [|c rest]; cbn [starClass]; [eauto|].
    destruct (p c); [|eauto].
    destruct (starClass p (S pos) rest k); eauto.
  - simpl in Hw. apply andb_true_iff in Hw as [Hc Hw].
    cbn [append starClass]. rewrite Hc.
    destruct (IH (S pos) k e Hw) as [e' ->]; [|eauto].
    now replace (S pos + String.length w) with (pos + String.length (String c w))
      by (simpl; lia).
Qed.

Lemma rmatch_complete (r : regex) (pos : nat) (w rest : string) :
  denotes r pos w rest ->
  forall (k : nat -> string -> option A) e,
    k (pos + String.length w) rest = Some e ->
    exists e', rmatch r pos (w ++ rest) k = Some e'.
Proof.
  induction 1 as [p c pos rest Hc
                 | r1 r2 pos w1 w2 rest _ IH1 _ IH2
                 | r1 r2 pos w rest _ IH
                 | r1 r2 pos w rest _ IH
                 | r pos w rest _ IH
                 | r pos rest
                 | p pos w rest Hw
                 | rest
                 | pos]; intros k e Hk; cbn [rmatch].
  - simpl. rewrite Hc. replace (S pos) with (pos + 1) by lia. eauto.
  - rewrite length_append, Nat.add_assoc in Hk.
    destruct (IH2 k e Hk) as [e2 H2].
    rewrite append_assoc. eapply (IH1 (fun pos' s' => rmatch r2 pos' s' k)). exact H2.
  - destruct (IH k e Hk) as [e' ->]. eauto.
  - destruct (rmatch r1 pos (w ++ rest) k); eauto.
  - destruct (IH k e Hk) as [e' ->]. eauto.
  - simpl in *. rewrite Nat.add_0_r in Hk.
    destruct (rmatch r pos rest k); eauto.
  - eapply starClass_complete; eassumption.
  - simpl in *. eauto.
  - simpl in *. rewrite Nat.add_0_r in Hk. eauto.
Qed.

End MatcherCorrect.

(* ================================================================== *)
(** * [strToDate]: claim C4 *)

Section TimeOnlyFacts.
Import Bytes.

Lemma digits_1 (s : string) :
  Spec.digits_n 1 s -> exists a, s = String a EmptyString /\ isDigit a = true.
Proof.
  intros [Hl Hd]. destruct s as [|a [|b s]]; try discriminate.
  simpl in Hd. rewrite andb_true_r in Hd. eauto.
Qed.

Lemma digits_2 (s : string) :
  Spec.digits_n 2 s ->
  exists a b, s = String a (String b EmptyString) /\ isDigit a = true /\ isDigit b = true.
Proof.
  intros [Hl Hd]. destruct s as [|a [|b [|c s]]]; try discriminate.
  simpl in Hd. rewrite andb_true_r in Hd. apply andb_true_iff in Hd as [Ha Hb]. eauto.
Qed.

(** A search that succeeds found its match where the matcher succeeded. *)
Lemma searchFrom_found (re : regex) (s : string) :
  forall pos skip m0 m1,
    searchFrom re pos s skip = Some (m0, m1) ->
    exists pre suf,
      s = pre ++ suf /\ m0 = pos + String.length pre
      /\ rmatch re m0 suf (fun e _ => Some e) = Some m1.
Proof.
  induction s as [|c s IH]; intros pos skip m0 m1 H;
    destruct skip as [|skip]; cbn [searchFrom] in H; try discriminate.
  - destruct (rmatch re pos EmptyString (fun e _ => Some e)) eqn:E; [|discriminate].
    inversion H; subst. exists EmptyString, EmptyString. rewrite Nat.add_0_r. auto.
  - destruct (rmatch re pos (String c s) (fun e _ => Some e)) eqn:E.
    + inversion H; subst. exists EmptyString, (String c s). rewrite Nat.add_0_r. auto.
    + apply IH in H as (pre & suf & -> & -> & H).
      exists (String c pre), suf. simpl. rewrite Nat.add_succ_r. auto.
  - apply IH in H as (pre & suf & -> & -> & H).
    exists (String c pre), suf. simpl. rewrite Nat.add_succ_r. auto.
Qed.

Lemma denotes_class_inv (p : ascii -> bool) (pos : nat) (w rest : string) :
  denotes (Class p) pos w rest -> exists c, w = String c EmptyString /\ p c = true.
Proof. inversion 1; subst; eauto. Qed.

Lemma denotes_cat_inv (r1 r2 : regex) (pos : nat) (w rest : string) :
  denotes (Cat r1 r2) pos w rest ->
  exists w1 w2, w = w1 ++ w2 /\ denotes r1 pos w1 (w2 ++ rest)
                /\ denotes r2 (pos + String.length w1) w2 rest.
Proof. inversion 1; subst; eauto. Qed.

Lemma denotes_alt_inv (r1 r2 : regex) (pos : nat) (w rest : string) :
  denotes (Alt r1 r2) pos w rest -> denotes r1 pos w rest \/ denotes r2 pos w rest.
Proof. inversion 1; subst; auto. Qed.

Lemma denotes_quest_inv (r : regex) (pos : nat) (w rest : string) :
  denotes (Quest r) pos w rest -> denotes r pos w rest \/ w = EmptyString.
Proof. inversion 1; subst; auto. Qed.

Lemma denotes_star_inv (p : ascii -> bool) (pos : nat) (w rest : string) :
  denotes (StarClass p) pos w rest -> all p w = true.
Proof. inversion 1; subst; auto. Qed.

Lemma denotes_bol_inv (pos : nat) (w rest : string) :
  denotes Bol pos w rest -> pos = 0 /\ w = EmptyString.
Proof. inversion 1; subst; auto. Qed.

Lemma denotes_eol_inv (pos : nat) (w rest : string) :
  denotes Eol pos w rest -> w = EmptyString /\ rest = EmptyString.
Proof. inversion 1; subst; auto. Qed.

Lemma denotes_digit (pos : nat) (w rest : string) :
  denotes digit pos w rest -> Spec.digits_n 1 w.
Proof.
  intros H. apply denotes_class_inv in H as (c & -> & Hc).
  split; [reflexivity | simpl; now rewrite Hc].
Qed.

Lemma denotes_chr (c : ascii) (pos : nat) (w rest : string) :
  denotes (chr c) pos w rest -> w = String c EmptyString.
Proof.
  intros H. apply denotes_class_inv in H as (c' & -> & Hc).
  apply Ascii.eqb_eq in Hc. now subst.
Qed.

Lemma denotes_word (a b : ascii) (pos : nat) (w rest : string) :
  denotes (word a b) pos w rest -> w = String a (String b EmptyString).
Proof.
  intros H. apply denotes_cat_inv in H as (w1 & w2 & -> & H1 & H2).
  apply denotes_chr in H1, H2. now subst.
Qed.

Lemma digits_n_append (n1 n2 : nat) (w1 w2 : string) :
  Spec.digits_n n1 w1 -> Spec.digits_n n2 w2 -> Spec.digits_n (n1 + n2) (w1 ++ w2).
Proof.
  intros [L1 D1] [L2 D2]. split; [rewrite length_append; lia|].
  clear L1 L2. induction w1 as [|c w1 IH]; simpl in *; [assumption|].
  apply andb_true_iff in D1 as [Hc D1]. now rewrite Hc, IH.
Qed.

Lemma denotes_two_digits (pos : nat) (w rest : string) :
  denotes (Cat digit digit) pos w rest -> Spec.digits_n 2 w.
Proof.
  intros H. apply denotes_cat_inv in H as (w1 & w2 & -> & H1 & H2).
  apply denotes_digit in H1, H2. now apply (digits_n_append 1 1).
Qed.

Lemma denotes_hour (pos : nat) (w rest : string) :
  denotes hourRe pos w rest -> Spec.digits_n 1 w \/ Spec.digits_n 2 w.
Proof.
  intros H. apply denotes_cat_inv in H as (w1 & w2 & -> & H1 & H2).
  apply denotes_digit in H1. apply denotes_quest_inv in H2 as [H2| ->].
  - right. apply denotes_digit in H2. now apply (digits_n_append 1 1).
  - left. now rewrite append_nil_r.
Qed.

Lemma denotes_marker (pos : nat) (w rest : string) :
  denotes markerRe pos w rest -> Spec.marker w.
Proof.
  unfold Spec.marker, markerRe. intros H.
  apply denotes_alt_inv in H as [H|H]; [|apply denotes_word in H; auto].
  apply denotes_alt_inv in H as [H|H]; [|apply denotes_word in H; auto].
  apply denotes_alt_inv in H as [H|H]; apply denotes_word in H; auto.
Qed.

Lemma denotes_tail (pos : nat) (w rest : string) :
  denotes timeOnlyTail pos w rest ->
  rest = EmptyString
  /\ exists sp m, w = sp ++ m /\ all isSpace sp = true
                  /\ (m = EmptyString \/ Spec.marker m).
Proof.
  intros H. apply denotes_cat_inv in H as (w1 & w2 & -> & H1 & H2).
  apply denotes_eol_inv in H2 as [-> ->]. split; [reflexivity|].
  rewrite append_nil_r.
  apply denotes_quest_inv in H1 as [H1| ->].
  - apply denotes_cat_inv in H1 as (sp & m & -> & Hsp & Hm).
    apply denotes_star_inv in Hsp.
    exists sp, m. apply denotes_quest_inv in Hm as [Hm|Hm];
      eauto using denotes_marker.
  - exists EmptyString, EmptyString. auto.
Qed.

Lemma denotes_seconds (pos : nat) (w rest : string) :
  denotes (Quest secondRe) pos w rest ->
  w = EmptyString \/ exists d, w = ":" ++ d /\ Spec.digits_n 2 d.
Proof.
  intros H. apply denotes_quest_inv in H as [H|H]; [|now left]. right.
  apply denotes_cat_inv in H as (w1 & w2 & -> & H1 & H2).
  apply denotes_chr in H1. apply denotes_two_digits in H2. subst. eauto.
Qed.

(** A pattern anchored at the start matches a text exactly when it denotes
    a prefix of it. *)
Lemma MatchString_anchored (r : regex) (s : string) :
  MatchString (Cat Bol r) s = true
  <-> exists w rest, s = w ++ rest /\ denotes r 0 w rest.
Proof.
  unfold MatchString, search. split.
  - destruct (searchFrom (Cat Bol r) 0 s 0) as [[m0 m1]|] eqn:E;
      [intros _ | discriminate].
    apply searchFrom_found in E as (pre & suf & -> & -> & E).
    apply rmatch_sound in E as (w & rest & -> & H & _).
    apply denotes_cat_inv in H as (w0 & w1 & -> & Hbol & H).
    apply denotes_bol_inv in Hbol as [Hpos ->].
    destruct pre; [|discriminate]. cbn [append String.length Nat.add] in *. eauto.
  - intros (w & rest & -> & H).
    assert (Hd : denotes (Cat Bol r) 0 (EmptyString ++ w) rest)
      by (constructor; [constructor | exact H]).
    destruct (rmatch_complete nat _ _ _ _ Hd (fun e _ => Some e) _ eq_refl)
      as [e He].
    cbn [append] in He. apply search_here in He. unfold search in He.
    now rewrite He.
Qed.

Lemma denotes_cat_eq (r1 r2 : regex) (pos : nat) (w w1 w2 rest : string) :
  w = w1 ++ w2 ->
  denotes r1 pos w1 (w2 ++ rest) ->
  denotes r2 (pos + String.length w1) w2 rest ->
  denotes (Cat r1 r2) pos w rest.
Proof. intros ->. apply denotes_cat. Qed.

Lemma digit_denotes (pos : nat) (w rest : string) :
  Spec.digits_n 1 w -> denotes digit pos w rest.
Proof.
  intros H. apply digits_1 in H as (a & -> & Ha). now constructor.
Qed.

Lemma two_digits_denote (pos : nat) (w rest : string) :
  Spec.digits_n 2 w -> denotes (Cat digit digit) pos w rest.
Proof.
  intros H. apply digits_2 in H as (a & b & -> & Ha & Hb).
  apply (denotes_cat_eq _ _ _ _ (String a EmptyString) (String b EmptyString));
    [reflexivity | now constructor | now constructor].
Qed.

Lemma hour_denotes (pos : nat) (w rest : string) :
  Spec.digits_n 1 w \/ Spec.digits_n 2 w -> denotes hourRe pos w rest.
Proof.
  intros [H|H].
  - apply (denotes_cat_eq _ _ _ _ w EmptyString);
      [now rewrite append_nil_r | now apply digit_denotes | apply denotes_quest_empty].
  - apply digits_2 in H as (a & b & -> & Ha & Hb).
    apply (denotes_cat_eq _ _ _ _ (String a EmptyString) (String b EmptyString));
      [reflexivity | now constructor | apply denotes_quest; now constructor].
Qed.

Lemma chr_denotes (c : ascii) (pos : nat) (rest : string) :
  denotes (chr c) pos (String c EmptyString) rest.
Proof. constructor. apply Ascii.eqb_refl. Qed.

Lemma word_denotes (a b : ascii) (pos : nat) (rest : string) :
  denotes (word a b) pos (String a (String b EmptyString)) rest.
Proof.
  apply (denotes_cat_eq _ _ _ _ (String a EmptyString) (String b EmptyString));
    [reflexivity | apply chr_denotes | apply chr_denotes].
Qed.

Lemma marker_denotes (pos : nat) (m rest : string) :
  Spec.marker m -> denotes markerRe pos m rest.
Proof.
  unfold markerRe. intros [->|[->|[->| ->]]].
  - apply denotes_alt_l, denotes_alt_l, denotes_alt_l, word_denotes.
  - apply denotes_alt_l, denotes_alt_l, denotes_alt_r, word_denotes.
  - apply denotes_alt_l, denotes_alt_r, word_denotes.
  - apply denotes_alt_r, word_denotes.
Qed.

Lemma tail_denotes (pos : nat) (sp m : string) :
  all isSpace sp = true -> m = EmptyString \/ Spec.marker m ->
  denotes timeOnlyTail pos (sp ++ m) EmptyString.
Proof.
  intros Hsp Hm.
  apply (denotes_cat_eq _ _ _ _ (sp ++ m) EmptyString);
    [now rewrite append_nil_r | | apply denotes_eol].
  apply denotes_quest, denotes_cat; [now apply denotes_star|].
  destruct Hm as [->|Hm]; [apply denotes_quest_empty|].
  now apply denotes_quest, marker_denotes.
Qed.

Lemma seconds_denote (pos : nat) (ss rest : string) :
  ss = EmptyString \/ (exists d, ss = ":" ++ d /\ Spec.digits_n 2 d) ->
  denotes (Quest secondRe) pos ss rest.
Proof.
  intros [->|(d & -> & Hd)]; [apply denotes_quest_empty|].
  apply denotes_quest.
  apply (denotes_cat_eq _ _ _ _ ":" d);
    [reflexivity | apply chr_denotes | now apply two_digits_denote].
Qed.

(** The pattern of [strToDate] matches exactly the bare times. *)
Lemma time_only_exact (s : string) :
  MatchString timeOnlyRe s = true <-> Spec.time_only Spec.marker s.
Proof.
  unfold timeOnlyRe. rewrite MatchString_anchored. split.
  - intros (w & rest & -> & H).
    apply denotes_cat_inv in H as (h & w2 & -> & Hh & H).
    apply denotes_cat_inv in H as (colon & w3 & -> & Hcolon & H).
    apply denotes_cat_inv in H as (mm & w4 & -> & Hmm & H).
    apply denotes_cat_inv in H as (ss & tl & -> & Hss & H).
    apply denotes_hour in Hh. apply denotes_chr in Hcolon.
    apply denotes_two_digits in Hmm. apply denotes_seconds in Hss.
    apply denotes_tail in H as (-> & sp & m & -> & Hsp & Hm). subst.
    exists h, mm, ss, sp, m. rewrite append_nil_r. auto 10.
  - intros (h & mm & ss & sp & m & -> & Hh & Hmm & Hss & Hsp & Hm).
    exists (h ++ ":" ++ mm ++ ss ++ sp ++ m), EmptyString.
    split; [now rewrite append_nil_r|].
    apply denotes_cat; [now apply hour_denotes|].
    apply (denotes_cat _ _ _ ":"); [apply chr_denotes|].
    apply denotes_cat; [now apply two_digits_denote|].
    apply denotes_cat; [now apply seconds_denote|].
    now apply tail_denotes.
Qed.

Lemma time_only_nonempty (mk : string -> Prop) (s : string) :
  Spec.time_only mk s -> (0 <? String.length s)%nat = true.
Proof.
  intros (h & mm & ss & sp & m & -> & _).
  rewrite length_append. simpl. apply Nat.ltb_lt. lia.
Qed.

End TimeOnlyFacts.

(** C4, as amended.  For every input of the shape [H:MM[:SS]] (an hour of
    one or two digits), optionally followed by blanks and by one of the
    markers [am], [pm], [AM], [PM], [strToDate] reads the clock, puts
    today's date in the form YYYY-MM-DD and a blank in front of the input
    and parses that; so ["1:32pm"] with [defaultToNow = false] is today at
    13:32:00 when the date parser reads "today 1:32pm" so. *)
Theorem C4_time_only_today (usage : string) (time_Now : nat -> Time)
    (dateparse_ParseLocal : string -> Time + error)
    (s errorStr : string) (defaultToNow : bool) (clock : nat) :
  Spec.time_only Spec.marker s ->
  MatchString timeOnlyRe s = true
  /\ strToDate usage time_Now dateparse_ParseLocal s errorStr defaultToNow clock
     = parseLocal usage time_Now dateparse_ParseLocal
                  (FormatDate (time_Now clock) ++ " " ++ s) errorStr (S clock)
  /\ (let today := time_Now clock in
      let t := mkTime (Year today) (Month today) (Day today) 13 32 0 0 in
      dateparse_ParseLocal (FormatDate today ++ " 1:32pm") = inl t ->
      Year today <> 0%Z ->
      strToDate usage time_Now dateparse_ParseLocal "1:32pm" errorStr false clock
      = Returns (Some t) (S clock)).
Proof.
  intros Hs. pose proof (proj2 (time_only_exact s) Hs) as Hm.
  split; [assumption|]. split.
  - unfold strToDate. rewrite (time_only_nonempty _ _ Hs), Hm. reflexivity.
  - intros today t Hp Hy. unfold strToDate. cbn [String.length Nat.ltb Nat.leb].
    change (MatchString timeOnlyRe "1:32pm") with true. cbv iota.
    unfold bind, now, parseLocal. fold today.
    change (" " ++ "1:32pm") with " 1:32pm". rewrite Hp.
    destruct (Z.eqb_spec (Year t) 0) as [E|_]; [now simpl in E|]. reflexivity.
Qed.

Lemma C4_time_only_today_witness :
  Spec.time_only Spec.marker "1:32pm"
  /\ strToDate Sample.usage Sample.time_Now Sample.dateparse_ParseLocal
               "1:32pm" "The --start date can't be parsed" false 0
     = parseLocal Sample.usage Sample.time_Now Sample.dateparse_ParseLocal
                  "2019-01-04 1:32pm" "The --start date can't be parsed" 1.
Proof.
  assert (H : Spec.time_only Spec.marker "1:32pm").
  { exists "1", "32", EmptyString, EmptyString, "pm".
    split; [reflexivity|]. split; [left; split; reflexivity|].
    split; [split; reflexivity|]. split; [left; reflexivity|].
    split; [reflexivity|]. right. right. left. reflexivity. }
  split; [exact H|].
  exact (proj1 (proj2 (C4_time_only_today Sample.usage Sample.time_Now
                         Sample.dateparse_ParseLocal "1:32pm"
                         "The --start date can't be parsed" false 0 H))).
Defined.

(** C4 as it is stated fails: ["1:32Pm"] is a bare time with a marker in
    another spelling; the pattern does not match it, so it goes to the date
    parser without today's date, and a parser that reads it after a date
    only ends the run. *)
Lemma C4_counterexample :
  Spec.time_only Spec.marker_any_case "1:32Pm"
  /\ MatchString timeOnlyRe "1:32Pm" = false
  /\ Sample.dateparse_dated "2019-01-04 1:32Pm" = inl (mkTime 2019 1 4 13 32 0 0)
  /\ strToDate Sample.usage Sample.time_Now Sample.dateparse_dated
               "1:32Pm" "The --start date can't be parsed" false 0
     = Exits ("The --start date can't be parsed: Could not find format for 1:32Pm"
              ++ Bytes.newline ++ Bytes.newline ++ Sample.usage) 1
  /\ ~ any_case_time_gets_today.
Proof.
  assert (H : Spec.time_only Spec.marker_any_case "1:32Pm").
  { exists "1", "32", EmptyString, EmptyString, "Pm".
    split; [reflexivity|]. split; [left; split; reflexivity|].
    split; [split; reflexivity|]. split; [left; reflexivity|].
    split; [reflexivity|]. right. right. reflexivity. }
  split; [exact H|]. repeat (split; [reflexivity|]).
  intros Hc.
  specialize (Hc Sample.usage Sample.time_Now Sample.dateparse_dated "1:32Pm"
                 "The --start date can't be parsed" false 0 H).
  discriminate Hc.
Qed.

(** Every other date string that is not empty goes to the date parser as
    it is, and the clock is not read before. *)
Lemma strToDate_other (usage : string) (time_Now : nat -> Time)
    (dateparse_ParseLocal : string -> Time + error)
    (s errorStr : string) (defaultToNow : bool) (clock : nat) :
  s <> EmptyString -> ~ Spec.time_only Spec.marker s ->
  strToDate usage time_Now dateparse_ParseLocal s errorStr defaultToNow clock
  = parseLocal usage time_Now dateparse_ParseLocal s errorStr clock.
Proof.
  intros Hne Hno. unfold strToDate.
  destruct s as [|c s]; [congruence|]. cbn [String.length Nat.ltb Nat.leb].
  destruct (MatchString timeOnlyRe (String c s)) eqn:E; [|reflexivity].
  now apply time_only_exact in E.
Qed.

(* ================================================================== *)
(** * How runs end *)

Section Endings.
Variable IniFile : Type.
Variable usage : string.
Variable time_Now : nat -> Time.
Variable dateparse_ParseLocal : string -> Time + error.
Variable user_Current : option User.
Variable config_New : string -> IniFile + error.
Variable stdout_is_terminal : bool.

Lemma invalidArgs_reported (A : Type) (err : option error) (msg : string) (clock : nat) :
  reported usage (@invalidArgs usage A err msg clock).
Proof. unfold invalidArgs, exit, reported. eauto. Qed.

Lemma bind_reported (A B : Type) (m : M A) (f : A -> M B) (clock : nat) :
  reported usage (m clock) ->
  (forall a c, reported usage (f a c)) ->
  reported usage (bind m f clock).
Proof.
  unfold bind. intros Hm Hf. destruct (m clock); [apply Hf | exact Hm | exact Hm].
Qed.

Lemma parseLocal_reported (dateStr errorStr : string) (clock : nat) :
  reported usage (parseLocal usage time_Now dateparse_ParseLocal dateStr errorStr clock).
Proof.
  unfold parseLocal. destruct (dateparse_ParseLocal dateStr).
  - destruct (Year t =? 0)%Z; exact I.
  - apply invalidArgs_reported.
Qed.

Lemma strToDate_reported (dateStr errorStr : string) (defaultToNow : bool) (clock : nat) :
  reported usage
    (strToDate usage time_Now dateparse_ParseLocal dateStr errorStr defaultToNow clock).
Proof.
  unfold strToDate. destruct (0 <? String.length dateStr)%nat.
  - destruct (MatchString timeOnlyRe dateStr); [|apply parseLocal_reported].
    apply bind_reported; [exact I | intros; apply parseLocal_reported].
  - destruct defaultToNow; exact I.
Qed.

Lemma timeRangeToSeconds_reported (timeRange : string) (clock : nat) :
  reported usage (timeRangeToSeconds usage timeRange clock).
Proof.
  unfold timeRangeToSeconds. generalize 0%Z.
  induction (FindAllString timeRangeRe timeRange (-1)) as [|part parts IH]; intros acc.
  - exact I.
  - rewrite timeRangeLoop_cons. destruct (partSeconds part) as [[v|err]|]; auto.
    apply invalidArgs_reported.
Qed.

Lemma readConfig_reported (opts : options IniFile) (clock : nat) :
  reported usage (readConfig usage config_New opts clock).
Proof.
  unfold readConfig. destruct (config_New (configPath opts)); [exact I|].
  apply invalidArgs_reported.
Qed.

(** With a current user a run of [parseArgs] returns or reports. *)
Lemma parseArgs_reported (parsed : arguments + error) (usr : User) (clock : nat) :
  user_Current = Some usr ->
  reported usage
    (parseArgs usage parsed time_Now dateparse_ParseLocal user_Current config_New
               stdout_is_terminal clock).
Proof.
  intros Hu. unfold parseArgs. apply bind_reported.
  - unfold expandPath. rewrite Hu. destruct (Strings.HasPrefix _ _); exact I.
  - intros dcp c. destruct parsed as [a|err]; [|apply invalidArgs_reported].
    apply bind_reported; [apply strToDate_reported | intros sd c1].
    apply bind_reported; [apply strToDate_reported | intros ed c2].
    apply bind_reported; [apply timeRangeToSeconds_reported | intros secs c3].
    apply readConfig_reported.
Qed.

(** Without one it panics at once. *)
Lemma parseArgs_no_user (parsed : arguments + error) (clock : nat) :
  user_Current = None ->
  parseArgs usage parsed time_Now dateparse_ParseLocal user_Current config_New
            stdout_is_terminal clock = Panics.
Proof. intros Hu. unfold parseArgs, bind, expandPath. now rewrite Hu. Qed.

(** X1.  Every run of [parseArgs] that ends the process by [os.Exit] went
    through [invalidArgs]: the status is 1 and the usage text is the last
    thing written to standard error, whatever failed (the command line, a
    date, the range or the configuration file). *)
Theorem X1_exit_reports_usage (parsed : arguments + error) (clock : nat)
    (stderr : string) (status : Z) :
  parseArgs usage parsed time_Now dateparse_ParseLocal user_Current config_New
            stdout_is_terminal clock = Exits stderr status ->
  status = 1%Z /\ exists report, stderr = report ++ usage.
Proof.
  intros H.
  pose proof (parseArgs_reported parsed) as R.
  pose proof (parseArgs_no_user parsed clock) as N.
  destruct user_Current as [usr|].
  - specialize (R usr clock eq_refl). rewrite H in R. exact R.
  - rewrite N in H by reflexivity. discriminate.
Qed.

(** X2.  [parseArgs] panics exactly when there is no current user, and then
    whatever the command line is: the default configuration path is
    expanded before the arguments are parsed, also when [--config] is
    given. *)
Theorem X2_panics_without_user (parsed : arguments + error) (clock : nat) :
  parseArgs usage parsed time_Now dateparse_ParseLocal user_Current config_New
            stdout_is_terminal clock = Panics
  <-> user_Current = None.
Proof.
  split; [|apply parseArgs_no_user].
  intros H. pose proof (parseArgs_reported parsed) as R.
  destruct user_Current as [usr|]; [|reflexivity].
  specialize (R usr clock eq_refl). rewrite H in R. destruct R.
Qed.

End Endings.

Lemma X1_exit_reports_usage_witness :
  let stderr := "The --start date can't be parsed: Could not find format for yesterday"
                ++ Bytes.newline ++ Bytes.newline ++ Sample.usage in
  Sample.parseArgs Sample.bad_start true 0 = Exits stderr 1
  /\ exists report, stderr = report ++ Sample.usage.
Proof.
  intros stderr.
  assert (H : Sample.parseArgs Sample.bad_start true 0 = Exits stderr 1) by reflexivity.
  split; [exact H|].
  exact (proj2 (X1_exit_reports_usage string Sample.usage Sample.time_Now
                  Sample.dateparse_ParseLocal Sample.user_Current Sample.config_New
                  true (inl Sample.bad_start) 0 stderr 1 H)).
Defined.

Lemma X2_panics_without_user_witness :
  parseArgs (IniFile := string) Sample.usage (inl Sample.no_arguments) Sample.time_Now
            Sample.dateparse_ParseLocal None Sample.config_New true 0 = Panics.
Proof.
  apply (proj2 (X2_panics_without_user string Sample.usage Sample.time_Now
                  Sample.dateparse_ParseLocal None Sample.config_New true
                  (inl Sample.no_arguments) 0)).
  reflexivity.
Defined.

(* ================================================================== *)
(** * [strToDate]: absence, year 0, failure *)

Section StrToDateMore.
Variable usage : string.
Variable time_Now : nat -> Time.
Variable dateparse_ParseLocal : string -> Time + error.

(** [strToDate] on a date string that is not empty, in one equation. *)
Lemma strToDate_handed (c : ascii) (r errorStr : string) (defaultToNow : bool)
    (clock : nat) :
  let dateStr := String c r in
  strToDate usage time_Now dateparse_ParseLocal dateStr errorStr defaultToNow clock
  = parseLocal usage time_Now dateparse_ParseLocal (handed time_Now dateStr clock)
               errorStr
               (if MatchString timeOnlyRe dateStr then S clock else clock).
Proof.
  intros dateStr. unfold strToDate, handed. cbn [String.length Nat.ltb Nat.leb].
  destruct (MatchString timeOnlyRe dateStr); reflexivity.
Qed.

(** X3.  [strToDate] returns no date only for an empty string that does not
    default to now: a run that returns from any other input returns a
    date. *)
Theorem X3_absent_only_when_empty (dateStr errorStr : string) (defaultToNow : bool)
    (clock clock' : nat) (d : option Time) :
  strToDate usage time_Now dateparse_ParseLocal dateStr errorStr defaultToNow clock
  = Returns d clock' ->
  (d = None <-> dateStr = EmptyString /\ defaultToNow = false).
Proof.
  intros H. destruct dateStr as [|c r].
  - rewrite strToDate_empty in H. destruct defaultToNow; inversion H; subst.
    + split; [discriminate | intros [_ E]; discriminate].
    + split; auto.
  - apply strToDate_given in H as [t ->]; [|discriminate].
    split; [discriminate | intros [E _]; discriminate].
Qed.

Lemma AddDate_fields (t : Time) (years : Z) :
  Year (AddDate t years) = (Year t + years)%Z
  /\ Hour (AddDate t years) = Hour t
  /\ Minute (AddDate t years) = Minute t
  /\ Second (AddDate t years) = Second t.
Proof. unfold AddDate. destruct (_ && _ && _); repeat split. Qed.

(** X4.  A date string that is not empty and comes back as a date was read
    by the date parser from the string [strToDate] handed to it.  A date of
    another year than 0 is returned as parsed; a date of year 0 is returned
    in the year of a clock reading taken during the call, at the same time
    of day.  So no returned date is of year 0 while the clock is not. *)
Theorem X4_year_zero_is_this_year (dateStr errorStr : string) (defaultToNow : bool)
    (clock clock' : nat) (t : Time) :
  dateStr <> EmptyString ->
  strToDate usage time_Now dateparse_ParseLocal dateStr errorStr defaultToNow clock
  = Returns (Some t) clock' ->
  exists t0,
    dateparse_ParseLocal (handed time_Now dateStr clock) = inl t0
    /\ (Year t0 <> 0%Z -> t = t0)
    /\ (Year t0 = 0%Z ->
        exists k, clock <= k < clock'
                  /\ Year t = Year (time_Now k)
                  /\ Hour t = Hour t0 /\ Minute t = Minute t0 /\ Second t = Second t0)
    /\ ((forall k, Year (time_Now k) <> 0%Z) -> Year t <> 0%Z).
Proof.
  intros Hne H. destruct dateStr as [|c r]; [congruence|].
  rewrite strToDate_handed in H. unfold parseLocal in H.
  set (c0 := if MatchString timeOnlyRe (String c r) then S clock else clock) in H.
  assert (Hc0 : clock <= c0) by (unfold c0; destruct (MatchString _ _); lia).
  destruct (dateparse_ParseLocal (handed time_Now (String c r) clock)) as [t0|err];
    [|now apply invalidArgs_returns in H].
  exists t0. split; [reflexivity|].
  destruct (Z.eqb_spec (Year t0) 0) as [E|E].
  - unfold bind, now, ret in H. inversion H; subst.
    destruct (AddDate_fields t0 (Year (time_Now c0))) as (Hy & Hh & Hm & Hs).
    rewrite E in Hy. simpl in Hy.
    split; [congruence|]. split.
    + intros _. exists c0. repeat split; auto; lia.
    + intros Hclock. rewrite Hy. apply Hclock.
  - unfold ret in H. inversion H; subst.
    split; [reflexivity|]. split; [congruence|]. intros _. exact E.
Qed.

(** What is written when the date parser rejects the string. *)
Lemma strToDate_rejected (dateStr errorStr : string) (defaultToNow : bool)
    (clock : nat) (err : error) :
  dateStr <> EmptyString -> errorStr <> EmptyString ->
  dateparse_ParseLocal (handed time_Now dateStr clock) = inr err ->
  strToDate usage time_Now dateparse_ParseLocal dateStr errorStr defaultToNow clock
  = Exits (errorStr ++ ": " ++ Error err ++ Bytes.newline ++ Bytes.newline ++ usage) 1.
Proof.
  intros Hne Hmsg Hp. destruct dateStr as [|c r]; [congruence|].
  rewrite strToDate_handed. unfold parseLocal. rewrite Hp. unfold invalidArgs, exit.
  destruct errorStr as [|e0 e1]; [congruence|]. cbn [String.length Nat.ltb Nat.leb].
  now rewrite !append_assoc.
Qed.

(** X5.  [strToDate] ends the run exactly when the string is not empty and
    the date parser rejects what it is handed; it then writes the caller's
    message, the parser's error and the usage text, and exits with
    status 1. *)
Theorem X5_rejected_date_is_fatal (dateStr errorStr : string) (defaultToNow : bool)
    (clock : nat) :
  ((exists stderr status,
      strToDate usage time_Now dateparse_ParseLocal dateStr errorStr defaultToNow clock
      = Exits stderr status)
   <-> dateStr <> EmptyString
       /\ exists err, dateparse_ParseLocal (handed time_Now dateStr clock) = inr err)
  /\ (forall err,
        dateStr <> EmptyString -> errorStr <> EmptyString ->
        dateparse_ParseLocal (handed time_Now dateStr clock) = inr err ->
        strToDate usage time_Now dateparse_ParseLocal dateStr errorStr defaultToNow clock
        = Exits (errorStr ++ ": " ++ Error err ++ Bytes.newline ++ Bytes.newline
                 ++ usage) 1).
Proof.
  destruct dateStr as [|c r].
  - split; [|congruence]. rewrite strToDate_empty. split.
    + intros (e & st & H). destruct defaultToNow; discriminate.
    + intros [H _]. congruence.
  - split; [|intros err Hne Hmsg Hp; now apply strToDate_rejected].
    rewrite strToDate_handed. unfold parseLocal. split.
    + intros (e & st & H). split; [discriminate|].
      destruct (dateparse_ParseLocal _) as [t0|err]; [|eauto].
      destruct (Year t0 =? 0)%Z; discriminate.
    + intros (_ & err & ->). unfold invalidArgs, exit. eauto.
Qed.

End StrToDateMore.

Lemma X3_absent_only_when_empty_witness :
  strToDate Sample.usage Sample.time_Now Sample.dateparse_ParseLocal
            EmptyString "The --start date can't be parsed" false 0 = Returns None 0
  /\ (@None Time = None <-> EmptyString = EmptyString /\ false = false).
Proof.
  assert (H : strToDate Sample.usage Sample.time_Now Sample.dateparse_ParseLocal
                        EmptyString "The --start date can't be parsed" false 0
              = Returns None 0) by reflexivity.
  split; [exact H|].
  exact (X3_absent_only_when_empty Sample.usage Sample.time_Now
           Sample.dateparse_ParseLocal EmptyString _ false 0 0 None H).
Defined.

Lemma X4_year_zero_is_this_year_witness :
  let t := mkTime 2019 5 8 17 57 51 0 in
  strToDate Sample.usage Sample.time_Now Sample.dateparse_ParseLocal
            "May 8 17:57:51" "The --start date can't be parsed" false 0
  = Returns (Some t) 1
  /\ exists t0,
       Sample.dateparse_ParseLocal "May 8 17:57:51" = inl t0
       /\ Year t0 = 0%Z /\ Year t = Year (Sample.time_Now 0).
Proof.
  intros t.
  assert (H : strToDate Sample.usage Sample.time_Now Sample.dateparse_ParseLocal
                        "May 8 17:57:51" "The --start date can't be parsed" false 0
              = Returns (Some t) 1) by reflexivity.
  split; [exact H|].
  assert (Hne : "May 8 17:57:51" <> EmptyString) by discriminate.
  destruct (X4_year_zero_is_this_year Sample.usage Sample.time_Now
              Sample.dateparse_ParseLocal "May 8 17:57:51" _ false 0 1 t Hne H)
    as (t0 & Hp & _).
  exists t0. split; [exact Hp|].
  unfold handed in Hp. simpl in Hp. inversion Hp. split; reflexivity.
Defined.

Lemma X5_rejected_date_is_fatal_witness :
  Sample.dateparse_ParseLocal "yesterday"
  = inr (ErrorString "Could not find format for yesterday")
  /\ strToDate Sample.usage Sample.time_Now Sample.dateparse_ParseLocal
               "yesterday" "The --start date can't be parsed" false 0
     = Exits ("The --start date can't be parsed: Could not find format for yesterday"
              ++ Bytes.newline ++ Bytes.newline ++ Sample.usage) 1.
Proof.
  split; [reflexivity|].
  apply (proj2 (X5_rejected_date_is_fatal Sample.usage Sample.time_Now
                  Sample.dateparse_ParseLocal "yesterday"
                  "The --start date can't be parsed" false 0)
           (ErrorString "Could not find format for yesterday"));
    [discriminate | discriminate | reflexivity].
Defined.

(* ================================================================== *)
(** * [parseArgs]: the configuration path, the order of the checks, the
      defaults *)

Section ParseArgsMore.
Variable IniFile : Type.
Variable usage : string.
Variable time_Now : nat -> Time.
Variable dateparse_ParseLocal : string -> Time + error.
Variable usr : User.
Variable config_New : string -> IniFile + error.
Variable stdout_is_terminal : bool.

(** The default configuration path, expanded. *)
Lemma expand_default_path (clock : nat) :
  expandPath (Some usr) DefaultConfigPath clock
  = Returns (Filepath.Join [HomeDir usr; ".doglog"]) clock.
Proof. reflexivity. Qed.

(** [parseArgs] from the parsed command line on, for a known user. *)
Lemma parseArgs_with_user (a : arguments) (clock : nat) :
  parseArgs usage (inl a) time_Now dateparse_ParseLocal (Some usr) config_New
            stdout_is_terminal clock
  = match strToDate usage time_Now dateparse_ParseLocal (arg EmptyString (arg_start a))
                    "The --start date can't be parsed" false clock with
    | Returns startDate c1 =>
      match strToDate usage time_Now dateparse_ParseLocal (arg EmptyString (arg_end a))
                      "The --end date can't be parsed" true c1 with
      | Returns endDate c2 =>
        match timeRangeToSeconds usage (arg DefaultRange (arg_range a)) c2 with
        | Returns seconds c3 =>
          readConfig usage config_New
            (mkOptions (arg EmptyString (arg_service a))
               (let service := arg EmptyString (arg_service a) in
                let query := arg EmptyString (arg_query a) in
                if (0 <? String.length service)%nat then
                  if (0 <? String.length query)%nat
                  then ("service:" ++ service) ++ " AND " ++ query
                  else "service:" ++ service
                else query)
               (let limit := arg DefaultLimit (arg_limit a) in
                if (limit <=? 0)%Z then DefaultLimit else limit)
               (match startDate with Some _ => false | None => arg_tail a end)
               (arg (Filepath.Join [HomeDir usr; ".doglog"]) (arg_config a))
               seconds startDate endDate (arg_json a) None
               (negb (arg_no_colors a) && isTty stdout_is_terminal)) c3
        | Exits e st => Exits e st
        | Panics => Panics
        end
      | Exits e st => Exits e st
      | Panics => Panics
      end
    | Exits e st => Exits e st
    | Panics => Panics
    end.
Proof.
  unfold parseArgs. unfold bind at 1. rewrite expand_default_path.
  unfold bind. reflexivity.
Qed.

(** X11.  In a run that returns, the configuration path is the [--config]
    value exactly as the user gave it (it is not expanded, also when it
    starts with ["~/"]), and without the option the home directory joined
    with [.doglog]; the server configuration is what [config.New] loaded
    from that very path. *)
Theorem X11_config_path (user_Current : option User) (a : arguments)
    (clock clock' : nat) (opts : options IniFile) :
  parseArgs usage (inl a) time_Now dateparse_ParseLocal user_Current config_New
            stdout_is_terminal clock = Returns opts clock' ->
  (forall path, arg_config a = Some path -> configPath opts = path)
  /\ (arg_config a = None ->
      exists home, user_Current = Some home
                   /\ configPath opts = Filepath.Join [HomeDir home; ".doglog"])
  /\ exists cfg, config_New (configPath opts) = inl cfg /\ serverConfig opts = Some cfg.
Proof.
  intros H. apply parseArgs_returns in H
    as (dcp & c1 & cfg & Hexp & _ & _ & _ & Hcfg & Hsc & Hcp & _).
  split; [|split].
  - intros path Ha. now rewrite Hcp, Ha.
  - intros Ha. destruct user_Current as [home|]; [|discriminate].
    exists home. split; [reflexivity|].
    rewrite Hcp, Ha. simpl. unfold expandPath in Hexp. simpl in Hexp.
    unfold ret in Hexp. now inversion Hexp.
  - eauto.
Qed.

(** X12.  The dates are checked before anything else on the command line:
    when the date parser rejects the start string the run ends with the
    message for [--start], whatever the end, the range and the
    configuration file are; when the start is read and the end string is
    rejected it ends with the message for [--end]. *)
Theorem X12_dates_checked_first (a : arguments) (clock : nat) (err : error) :
  (arg EmptyString (arg_start a) <> EmptyString ->
   dateparse_ParseLocal (handed time_Now (arg EmptyString (arg_start a)) clock) = inr err ->
   parseArgs usage (inl a) time_Now dateparse_ParseLocal (Some usr) config_New
             stdout_is_terminal clock
   = Exits ("The --start date can't be parsed: " ++ Error err ++ Bytes.newline
            ++ Bytes.newline ++ usage) 1)
  /\ (forall startDate c1,
        strToDate usage time_Now dateparse_ParseLocal (arg EmptyString (arg_start a))
                  "The --start date can't be parsed" false clock
        = Returns startDate c1 ->
        arg EmptyString (arg_end a) <> EmptyString ->
        dateparse_ParseLocal (handed time_Now (arg EmptyString (arg_end a)) c1) = inr err ->
        parseArgs usage (inl a) time_Now dateparse_ParseLocal (Some usr) config_New
                  stdout_is_terminal clock
        = Exits ("The --end date can't be parsed: " ++ Error err ++ Bytes.newline
                 ++ Bytes.newline ++ usage) 1).
Proof.
  split.
  - intros Hne Hp. rewrite parseArgs_with_user.
    rewrite (strToDate_rejected usage time_Now dateparse_ParseLocal _ _ false clock err)
      by (assumption || discriminate).
    reflexivity.
  - intros sd c1 Hs Hne Hp. rewrite parseArgs_with_user, Hs.
    rewrite (strToDate_rejected usage time_Now dateparse_ParseLocal _ _ true c1 err)
      by (assumption || discriminate).
    reflexivity.
Qed.

(** X13.  The configuration file is read last: when both dates and the
    range are read and [config.New] fails, the run ends with the error of
    [config.New] alone (no message in front) and the usage text, with
    status 1. *)
Theorem X13_config_failure (a : arguments) (clock c1 c2 : nat)
    (startDate endDate : option Time) (seconds : Z) (err : error) :
  strToDate usage time_Now dateparse_ParseLocal (arg EmptyString (arg_start a))
            "The --start date can't be parsed" false clock = Returns startDate c1 ->
  strToDate usage time_Now dateparse_ParseLocal (arg EmptyString (arg_end a))
            "The --end date can't be parsed" true c1 = Returns endDate c2 ->
  timeRangeToSeconds usage (arg DefaultRange (arg_range a)) c2 = Returns seconds c2 ->
  config_New (arg (Filepath.Join [HomeDir usr; ".doglog"]) (arg_config a)) = inr err ->
  parseArgs usage (inl a) time_Now dateparse_ParseLocal (Some usr) config_New
            stdout_is_terminal clock
  = Exits (Error err ++ Bytes.newline ++ Bytes.newline ++ usage) 1.
Proof.
  intros Hs He Hr Hc. rewrite parseArgs_with_user, Hs, He, Hr.
  unfold readConfig. cbn [configPath]. rewrite Hc.
  unfold invalidArgs, exit. cbn [String.length Nat.ltb Nat.leb].
  now rewrite !append_assoc.
Qed.

(** X14.  A command line without options resolves to the defaults: no
    service, an empty query, limit 300, no tail, a range of 7200 seconds
    (["2h"]), no start, the current moment as the end, plain output, colors,
    and the configuration of [.doglog] in the home directory; the clock is
    read once. *)
Theorem X14_defaults (clock : nat) (cfg : IniFile) :
  config_New (Filepath.Join [HomeDir usr; ".doglog"]) = inl cfg ->
  parseArgs usage (inl Sample.no_arguments) time_Now dateparse_ParseLocal (Some usr)
            config_New stdout_is_terminal clock
  = Returns (mkOptions EmptyString EmptyString 300%Z false
                       (Filepath.Join [HomeDir usr; ".doglog"]) 7200%Z
                       None (Some (time_Now clock)) false (Some cfg) true)
            (S clock).
Proof.
  intros Hc. rewrite parseArgs_with_user.
  cbn [Sample.no_arguments arg arg_service arg_query arg_limit arg_tail arg_config
       arg_range arg_start arg_end arg_json arg_no_colors].
  rewrite !strToDate_empty.
  change (timeRangeToSeconds usage DefaultRange (S clock)) with (Returns 7200%Z (S clock)).
  unfold readConfig. cbn [configPath]. rewrite Hc. reflexivity.
Qed.

End ParseArgsMore.

Lemma X11_config_path_witness :
  let a := mkArguments None None None false (Some "~/other.ini") None None None
                       false false in
  exists opts,
    Sample.parseArgs a true 0 = Returns opts 1 /\ configPath opts = "~/other.ini".
Proof.
  intros a.
  pose (opts := mkOptions EmptyString EmptyString 300%Z false "~/other.ini" 7200%Z
                          None (Some (Sample.time_Now 0)) false (Some "~/other.ini") true).
  assert (H : Sample.parseArgs a true 0 = Returns opts 1) by reflexivity.
  exists opts. split; [exact H|].
  exact (proj1 (X11_config_path string Sample.usage Sample.time_Now
                  Sample.dateparse_ParseLocal Sample.config_New true
                  Sample.user_Current a 0 1 opts H) "~/other.ini" eq_refl).
Defined.

Lemma X12_dates_checked_first_witness :
  arg_range Sample.bad_start = Some "5x"
  /\ Sample.parseArgs Sample.bad_start true 0
     = Exits ("The --start date can't be parsed: Could not find format for yesterday"
              ++ Bytes.newline ++ Bytes.newline ++ Sample.usage) 1.
Proof.
  split; [reflexivity|].
  apply (proj1 (X12_dates_checked_first string Sample.usage Sample.time_Now
                  Sample.dateparse_ParseLocal (mkUser "/home/zach") Sample.config_New
                  true Sample.bad_start 0
                  (ErrorString "Could not find format for yesterday")));
    [discriminate | reflexivity].
Defined.

Lemma X13_config_failure_witness :
  parseArgs Sample.usage (inl Sample.no_arguments) Sample.time_Now
            Sample.dateparse_ParseLocal Sample.user_Current Sample.config_missing true 0
  = Exits ("open /home/zach/.doglog: no such file or directory"
           ++ Bytes.newline ++ Bytes.newline ++ Sample.usage) 1.
Proof.
  apply (X13_config_failure string Sample.usage Sample.time_Now
           Sample.dateparse_ParseLocal (mkUser "/home/zach") Sample.config_missing
           true Sample.no_arguments 0 0 1 None (Some (Sample.time_Now 0)) 7200%Z
           (ErrorString "open /home/zach/.doglog: no such file or directory"));
    reflexivity.
Defined.

Lemma X14_defaults_witness :
  Sample.parseArgs Sample.no_arguments true 7
  = Returns (mkOptions EmptyString EmptyString 300%Z false "/home/zach/.doglog" 7200%Z
                       None (Some (Sample.time_Now 7)) false
                       (Some "/home/zach/.doglog") true) 8.
Proof.
  exact (X14_defaults string Sample.usage Sample.time_Now Sample.dateparse_ParseLocal
           (mkUser "/home/zach") Sample.config_New true 7 "/home/zach/.doglog" eq_refl).
Defined.

(* ================================================================== *)
(** * [expandPath]: what the join gives, and expanding twice *)

Section ExpandPathMore.
Import Bytes.

Lemma split_element (e : string) :
  all no_slash e = true -> Filepath.split e = [e].
Proof.
  induction e as [|c e IH]; intros H; simpl in *; [reflexivity|].
  apply andb_true_iff in H as [Hc He]. unfold no_slash in Hc.
  apply negb_true_iff in Hc. rewrite Hc, (IH He). reflexivity.
Qed.

Lemma split_cons (e rest : string) :
  all no_slash e = true ->
  Filepath.split (e ++ "/" ++ rest) = e :: Filepath.split rest.
Proof.
  induction e as [|c e IH]; intros H; simpl in *; [reflexivity|].
  apply andb_true_iff in H as [Hc He]. unfold no_slash in Hc.
  apply negb_true_iff in Hc. rewrite Hc, (IH He). reflexivity.
Qed.

Lemma split_Join (es : list string) :
  es <> [] -> Forall is_element es ->
  Filepath.split (Strings.Join es "/") = es.
Proof.
  induction es as [|e es IH]; intros Hne H; [congruence|].
  inversion H as [|? ? (_ & _ & _ & He) Hes]; subst.
  destruct es as [|e' es].
  - simpl. now apply split_element.
  - change (Strings.Join (e :: e' :: es) "/")
      with (e ++ "/" ++ Strings.Join (e' :: es) "/").
    rewrite split_cons by assumption. f_equal. apply IH; [discriminate | assumption].
Qed.

Lemma Join_app (hs rs : list string) :
  hs <> [] -> rs <> [] ->
  Strings.Join (hs ++ rs) "/" = Strings.Join hs "/" ++ "/" ++ Strings.Join rs "/".
Proof.
  induction hs as [|h hs IH]; intros Hh Hr; [congruence|].
  destruct hs as [|h' hs].
  - destruct rs; [congruence | reflexivity].
  - change (Strings.Join ((h :: h' :: hs) ++ rs) "/")
      with (h ++ "/" ++ Strings.Join ((h' :: hs) ++ rs) "/").
    rewrite IH by (assumption || discriminate).
    change (Strings.Join (h :: h' :: hs) "/")
      with (h ++ "/" ++ Strings.Join (h' :: hs) "/").
    now rewrite !append_assoc.
Qed.

Lemma clean_elements (rooted : bool) (es : list string) :
  forall kept,
    Forall is_element es ->
    fold_left (Filepath.cleanStep rooted) es kept = (rev es ++ kept)%list.
Proof.
  induction es as [|e es IH]; intros kept H; [reflexivity|].
  inversion H as [|? ? (H1 & H2 & H3 & _) Hes]; subst.
  cbn [fold_left]. unfold Filepath.cleanStep at 2.
  apply String.eqb_neq in H1, H2, H3. rewrite H1, H2, H3. cbn [orb].
  rewrite IH by assumption. cbn [rev]. now rewrite <- app_assoc.
Qed.

(** [filepath.Clean] leaves an absolute path of plain elements alone. *)
Lemma Clean_absolute (es : list string) :
  es <> [] -> Forall is_element es ->
  Filepath.Clean (absolute es) = absolute es.
Proof.
  intros Hne H. unfold absolute, Filepath.Clean.
  change ("/" ++ Strings.Join es "/") with (String "/" (Strings.Join es "/")).
  cbn [Ascii.eqb Bool.eqb]. cbn [Filepath.split Ascii.eqb Bool.eqb].
  rewrite split_Join by assumption.
  cbn [fold_left]. unfold Filepath.cleanStep at 2. cbn [String.eqb orb].
  rewrite clean_elements by assumption.
  now rewrite app_nil_r, rev_involutive.
Qed.

(** X9.  For a home directory that is an absolute path of plain elements
    (no empty element, [.] or [..]) and a remainder of plain elements,
    [expandPath] of ["~/"] and the remainder is the home directory, a
    slash and the remainder: the equation [TestExpandPath] checks for
    [.doglog]. *)
Theorem X9_expand_is_home_slash_rest (usr : User) (home rest : list string)
    (clock : nat) :
  HomeDir usr = absolute home ->
  home <> [] -> Forall is_element home ->
  rest <> [] -> Forall is_element rest ->
  expandPath (Some usr) ("~/" ++ Strings.Join rest "/") clock
  = Returns (HomeDir usr ++ "/" ++ Strings.Join rest "/") clock.
Proof.
  intros Hh Hne Hhome Hr Hrest. unfold expandPath, ret.
  change (Strings.HasPrefix ("~/" ++ Strings.Join rest "/") "~/") with true.
  cbn [append drop]. f_equal. rewrite Hh.
  assert (E : absolute home ++ "/" ++ Strings.Join rest "/" = absolute (home ++ rest)).
  { unfold absolute. now rewrite append_assoc, <- Join_app. }
  change (Filepath.Join [absolute home; Strings.Join rest "/"])
    with (Filepath.Clean (absolute home ++ "/" ++ Strings.Join rest "/")).
  change (absolute home ++ String "/" (Strings.Join rest "/"))
    with (absolute home ++ "/" ++ Strings.Join rest "/").
  rewrite E. apply Clean_absolute.
  - destruct home; [congruence | discriminate].
  - apply Forall_app. now split.
Qed.

(** X10.  When the home directory is an absolute path, what [expandPath]
    returns does not begin with ["~/"], so that expanding it again gives
    it back. *)
Theorem X10_expand_twice (user_Current : option User) (path expanded : string)
    (clock clock' : nat) :
  (forall usr, user_Current = Some usr -> Strings.HasPrefix (HomeDir usr) "/" = true) ->
  expandPath user_Current path clock = Returns expanded clock' ->
  expandPath user_Current expanded clock' = Returns expanded clock'.
Proof.
  intros Habs H. unfold expandPath in H.
  destruct (Strings.HasPrefix path "~/") eqn:E.
  - destruct user_Current as [usr|]; [|discriminate].
    specialize (Habs usr eq_refl).
    unfold ret in H. inversion H; subst. clear H.
    destruct (HomeDir usr) as [|c home]; [discriminate|].
    cbn [Strings.HasPrefix] in Habs. apply andb_true_iff in Habs as [Hc _].
    apply Ascii.eqb_eq in Hc. subst c.
    unfold Filepath.Join. cbn [String.eqb]. unfold Filepath.Clean.
    cbn [Strings.Join append Ascii.eqb Bool.eqb]. reflexivity.
  - unfold ret in H. inversion H; subst. unfold expandPath. now rewrite E.
Qed.

End ExpandPathMore.

Lemma X9_expand_is_home_slash_rest_witness :
  HomeDir (mkUser "/home/zach") = absolute ["home"; "zach"]
  /\ expandPath Sample.user_Current "~/.doglog" 0 = Returns "/home/zach/.doglog" 0.
Proof.
  split; [reflexivity|].
  assert (He : forall e, e <> EmptyString -> e <> "." -> e <> ".." ->
                         Bytes.all no_slash e = true -> is_element e)
    by (intros e H1 H2 H3 H4; repeat split; assumption).
  apply (X9_expand_is_home_slash_rest (mkUser "/home/zach") ["home"; "zach"]
           [".doglog"] 0); try reflexivity; try discriminate;
    repeat constructor; discriminate.
Defined.

Lemma X10_expand_twice_witness :
  expandPath Sample.user_Current "~/a/../.doglog" 0 = Returns "/home/zach/.doglog" 0
  /\ expandPath Sample.user_Current "/home/zach/.doglog" 0
     = Returns "/home/zach/.doglog" 0.
Proof.
  assert (H : expandPath Sample.user_Current "~/a/../.doglog" 0
              = Returns "/home/zach/.doglog" 0) by reflexivity.
  split; [exact H|].
  apply (X10_expand_twice Sample.user_Current "~/a/../.doglog" "/home/zach/.doglog" 0 0);
    [|exact H].
  intros usr Hu. inversion Hu. reflexivity.
Defined.

(* ================================================================== *)
(** * [timeRangeToSeconds]: stray bytes, single tokens, single bytes *)

Section StrayFacts.
Import Bytes.

Lemma stray_facts (c : ascii) (rest : string) :
  is_stray c = true ->
  isDigit c = false /\ isLetter c = false /\ Utf8.runeWidth (String c rest) = 1.
Proof.
  unfold is_stray. intros H.
  apply andb_true_iff in H as [H Hl]. apply andb_true_iff in H as [Ha Hd].
  apply negb_true_iff in Hl, Hd. repeat split; try assumption.
  unfold Utf8.runeWidth.
  assert (Hb : Utf8.between 0 127 c = true).
  { unfold Utf8.between. apply Nat.ltb_lt in Ha. apply andb_true_iff.
    split; apply Nat.leb_le; lia. }
  now rewrite Hb.
Qed.

Lemma match_stray (c : ascii) (rest : string) (pos : nat) :
  is_stray c = true ->
  search timeRangeRe pos (String c rest) = Some (pos, pos).
Proof.
  intros H. destruct (stray_facts c rest H) as (Hd & Hl & _).
  apply search_here. unfold timeRangeRe. cbn [rmatch starClass]. now rewrite Hd, Hl.
Qed.

(** At the front of a segment that no letter follows the pattern matches
    exactly the segment. *)
Lemma match_segment_then (sg : Spec.segment) (rest : string) (pos : nat) :
  Spec.is_segment sg ->
  match rest with String c _ => isLetter c = false | EmptyString => True end ->
  search timeRangeRe pos (Spec.text sg ++ rest)
  = Some (pos, pos + String.length (Spec.text sg)).
Proof.
  intros (Hne & Hd & Hu) Hrest. apply search_here.
  unfold timeRangeRe, Spec.text. cbn [rmatch].
  rewrite append_assoc.
  destruct (Spec.multiplier (Spec.seg_unit sg)) as [m|] eqn:Em; [|congruence].
  apply multiplier_unit in Em as [Hl _].
  apply starClass_run; auto.
  - simpl. now apply letter_not_digit.
  - apply (starClass_run _ isLetter (String (Spec.seg_unit sg) EmptyString)).
    + simpl. now rewrite Hl.
    + exact Hrest.
    + rewrite length_append. simpl. f_equal. lia.
Qed.

Lemma tokens_head (ts : list token) :
  Forall token_ok ts ->
  match tokens_text ts with
  | String c _ => isLetter c = false
  | EmptyString => True
  end.
Proof.
  intros H. destruct H as [|[sg|c] ts Hok _]; cbn [tokens_text]; [exact I| |].
  - destruct Hok as [(Hne & Hd & _) _]. unfold Spec.text.
    destruct (Spec.seg_digits sg) as [|d ds]; [congruence|].
    simpl in *. apply andb_true_iff in Hd as [Hc _]. now apply digit_not_letter.
  - now destruct (stray_facts c EmptyString Hok) as (_ & Hl & _).
Qed.

Lemma slice_empty (i : nat) (s : string) : slice i i s = EmptyString.
Proof.
  unfold slice. rewrite Nat.sub_diag. revert s.
  induction i as [|i IH]; intros [|c s]; simpl; auto.
Qed.

Lemma append_snoc (pre : string) (c : ascii) (rest : string) :
  pre ++ String c rest = (pre ++ String c EmptyString) ++ rest.
Proof. symmetry. apply (append_assoc pre (String c EmptyString) rest). Qed.

(** The scan of a sequence of tokens: the parts of two or more bytes are
    the segments. *)
Lemma allMatches_tokens (ts : list token) :
  forall s pre pos fuel i prev,
    s = pre ++ tokens_text ts -> pos = String.length pre ->
    Forall token_ok ts ->
    i <= pos -> String.length s + 2 - pos <= fuel ->
    filter long
      (map (fun m => slice (fst m) (snd m) s)
           (allMatches fuel timeRangeRe s (String.length s + 1) pos i prev))
    = map Spec.text (tokens_segments ts).
Proof.
  induction ts as [|t ts IH]; intros s pre pos fuel i prev Hs Hpos Hok Hi Hfuel.
  - cbn [tokens_text tokens_segments map] in *. rewrite append_nil_r in Hs. subst s pos.
    destruct fuel as [|[|fuel]]; try lia. cbn [allMatches].
    destruct (Nat.ltb_spec i (String.length pre + 1)); [|lia].
    rewrite Nat.leb_refl. cbn [andb].
    replace (drop (String.length pre) pre) with EmptyString
      by (rewrite <- (append_nil_r pre) at 2; now rewrite drop_append).
    cbn [search searchFrom rmatch timeRangeRe starClass Utf8.runeWidth Nat.ltb Nat.leb].
    rewrite Nat.eqb_refl.
    destruct (Nat.leb_spec (String.length pre + 1) (String.length pre)); [lia|].
    rewrite andb_false_r.
    destruct (negb _); cbn [map filter fst snd]; [|reflexivity].
    rewrite slice_empty. reflexivity.
  - apply Forall_cons_iff in Hok as [Ht Hts].
    assert (Hlen : String.length s = String.length pre + String.length (tokens_text (t :: ts)))
      by (rewrite Hs; apply length_append).
    destruct t as [sg|c]; cbn [tokens_text tokens_segments map] in *.
    + destruct Ht as [Hsg Hfit]. pose proof (text_length sg) as Hsgl.
      rewrite length_append in Hlen.
      destruct fuel as [|fuel]; [lia|]. cbn [allMatches].
      destruct (Nat.ltb_spec i (String.length s + 1)); [|lia].
      destruct (Nat.leb_spec pos (String.length s)); [|lia].
      cbn [andb].
      replace (drop pos s) with (Spec.text sg ++ tokens_text ts)
        by (subst s pos; now rewrite drop_append).
      rewrite match_segment_then by (try assumption; now apply tokens_head).
      destruct (Nat.eqb_spec (pos + String.length (Spec.text sg)) pos); [lia|].
      cbn [andb negb map filter fst snd].
      assert (Hslice : slice pos (pos + String.length (Spec.text sg)) s = Spec.text sg)
        by (subst s pos; apply slice_middle).
      rewrite Hslice. unfold long at 1. rewrite Hsgl.
      destruct (Nat.ltb_spec 1 (S (String.length (Spec.seg_digits sg)))) as [_|Hbad].
      * f_equal. apply (IH s (pre ++ Spec.text sg)); auto.
        -- subst s. symmetry. apply append_assoc.
        -- subst pos. rewrite length_append. lia.
        -- lia.
        -- lia.
      * destruct Hsg as (Hne & _). apply digits_nonempty_length in Hne. lia.
    + destruct (stray_facts c (tokens_text ts) Ht) as (_ & _ & Hw).
      cbn [String.length] in Hlen.
      destruct fuel as [|fuel]; [lia|]. cbn [allMatches].
      destruct (Nat.ltb_spec i (String.length s + 1)); [|lia].
      destruct (Nat.leb_spec pos (String.length s)); [|lia].
      cbn [andb].
      replace (drop pos s) with (String c (tokens_text ts))
        by (subst s pos; now rewrite drop_append).
      rewrite match_stray by assumption. rewrite Nat.eqb_refl, Hw.
      cbn [andb Nat.ltb Nat.leb].
      assert (Hrec : forall i' prev', i' <= S i ->
                filter long
                  (map (fun m => slice (fst m) (snd m) s)
                       (allMatches fuel timeRangeRe s (String.length s + 1)
                                   (pos + 1) i' prev'))
                = map Spec.text (tokens_segments ts)).
      { intros i' prev' Hi'. apply (IH s (pre ++ String c EmptyString)); auto.
        - subst s. apply append_snoc.
        - subst pos. rewrite length_append. reflexivity.
        - lia.
        - lia. }
      destruct (negb _); cbn [map filter fst snd].
      * rewrite slice_empty. cbn [long String.length Nat.ltb Nat.leb].
        apply Hrec. lia.
      * apply Hrec. lia.
Qed.

(** The loop does not look at parts of fewer than two bytes. *)
Lemma timeRangeLoop_long (usage : string) (parts : list string) :
  forall acc clock,
    timeRangeLoop usage parts acc clock
    = timeRangeLoop usage (filter long parts) acc clock.
Proof.
  induction parts as [|part parts IH]; intros acc clock; [reflexivity|].
  cbn [filter]. destruct (long part) eqn:E.
  - rewrite !timeRangeLoop_cons. destruct (partSeconds part) as [[v|err]|]; auto.
  - rewrite timeRangeLoop_cons. unfold partSeconds. unfold long in E. rewrite E. apply IH.
Qed.

Lemma tokens_segments_ok (ts : list token) :
  Forall token_ok ts ->
  Forall Spec.is_segment (tokens_segments ts) /\ Forall Spec.fits (tokens_segments ts).
Proof.
  induction 1 as [|[sg|c] ts Hok _ [IH1 IH2]]; cbn [tokens_segments]; auto.
  destruct Hok. split; constructor; assumption.
Qed.

(** X6.  Stray ASCII bytes that are neither digits nor letters (blanks,
    commas, a sign) before, between and after whole segments are ignored:
    the range is the sum of its segments, as a Go [int], and no error is
    reported. *)
Theorem X6_stray_bytes_ignored (usage : string) (ts : list token) (clock : nat) :
  Forall token_ok ts ->
  timeRangeToSeconds usage (tokens_text ts) clock
  = Returns (Int.wrap (Spec.total (tokens_segments ts))) clock.
Proof.
  intros Hok. unfold timeRangeToSeconds. rewrite timeRangeLoop_long.
  unfold FindAllString. cbn [Z.ltb Z.compare].
  rewrite (allMatches_tokens ts (tokens_text ts) EmptyString 0); auto; try lia.
  destruct (tokens_segments_ok ts Hok) as [H1 H2].
  change 0%Z with (Int.wrap 0). now rewrite timeRangeLoop_segments.
Qed.

End StrayFacts.

Lemma X6_stray_bytes_ignored_witness :
  let ts := [Stray "-"; Seg (Spec.mkSegment "1" "h"); Stray ","; Stray " ";
             Seg (Spec.mkSegment "30" "m"); Stray "!"] in
  Forall token_ok ts
  /\ timeRangeToSeconds Sample.usage "-1h, 30m!" 0 = Returns 5400%Z 0.
Proof.
  intros ts.
  assert (H : Forall token_ok ts).
  { unfold ts. repeat constructor; try reflexivity; try discriminate;
      unfold Spec.fits; vm_compute; discriminate. }
  split; [exact H|].
  exact (X6_stray_bytes_ignored Sample.usage ts 0 H).
Defined.
